(** * ElderGuard AI: audio bridge and verdict protocol

    A shallow embedding of the algorithmic core of the repository:

    - [Codec]     : the mu-law tables and resamplers of
                    [src/backend/twilio-server.ts];
    - [Telephony] : the per-connection handlers of the same file;
    - [Live]      : the [GeminiLiveService] class of
                    [src/services/geminiLiveService.ts];
    - [Simulator] : the playback cursor and callbacks of the Simulator
                    component.

    Typed arrays are lists of [Z] with the conversion applied by every
    store written out; JavaScript's 32-bit operators are written with
    their wrap-around; event handlers are functions from a state to a
    new state and the list of calls they make on their collaborators. *)

From Stdlib Require Import ZArith Lia List String QArith Qminmax Qround.
From stdpp Require Import base list.

(** ** JavaScript integer conversions and a counted loop *)

Module JS.
Local Open Scope Z_scope.

(** ToInt32, ToInt16 and ToUint8 of an integral number. *)
Definition to_int32 (v : Z) : Z :=
  let m := v mod 4294967296 in
  if 2147483648 <=? m then m - 4294967296 else m.

Definition to_int16 (v : Z) : Z :=
  let m := v mod 65536 in
  if 32768 <=? m then m - 65536 else m.

Definition to_uint8 (v : Z) : Z := v mod 256.

(** The operators [<<], [>>], [&], [|] and [~]: operands go through
    ToInt32, the shift count is taken modulo 32. *)
Definition shl (a b : Z) : Z := to_int32 (Z.shiftl (to_int32 a) (b mod 32)).
Definition shr (a b : Z) : Z := Z.shiftr (to_int32 a) (b mod 32).
Definition and (a b : Z) : Z := Z.land (to_int32 a) (to_int32 b).
Definition or (a b : Z) : Z := Z.lor (to_int32 a) (to_int32 b).
Definition not (a : Z) : Z := Z.lnot (to_int32 a).

(** An [Int16Array]: reading out of range gives [undefined] ([None]),
    a store converts with ToInt16 ([undefined] becomes 0) and is ignored
    out of range. *)
Definition is_int16 (v : Z) : Prop := -32768 <= v <= 32767.
Definition is_byte (v : Z) : Prop := 0 <= v < 256.

Definition store_int16 (o : option Z) : Z :=
  match o with
  | Some v => to_int16 v
  | None => 0
  end.

Definition i16_new (n : nat) : list Z := replicate n 0.
Definition i16_get (a : list Z) (i : nat) : option Z := a !! i.
Definition i16_set (a : list Z) (i : nat) (v : option Z) : list Z :=
  <[i := store_int16 v]> a.

(** [for (let i = start; i < start + count; i++) body], threading the
    state the body mutates. *)
Fixpoint for_range {St : Type} (count i : nat) (body : nat -> St -> St) (s : St) : St :=
  match count with
  | O => s
  | S c => for_range c (S i) body (body i s)
  end.

End JS.

(** ** The codec layer of [twilio-server.ts] *)

Module Codec.
Import JS.
Local Open Scope Z_scope.

(** The body of the loop that fills [MU_LAW_TABLE], before the store. *)
Definition mulaw_entry (i : Z) : Z :=
  let sign := if JS.and i 0x80 =? 0 then 1 else -1 in
  let exponent := JS.and (JS.shr i 4) 0x07 in
  let mantissa := JS.and i 0x0f in
  let sample := JS.shl (JS.shl mantissa 3 + 0x84) exponent - 0x84 in
  sign * sample.

Definition MU_LAW_TABLE : list Z :=
  for_range 256 0
    (fun i t => i16_set t i (Some (mulaw_entry (Z.of_nat i))))
    (i16_new 256).

(** [MU_LAW_TABLE[b]] for a byte [b] read from a Buffer. *)
Definition table_get (b : Z) : option Z :=
  if b <? 0 then None else i16_get MU_LAW_TABLE (Z.to_nat b).

Definition decodeMulaw (data : list Z) : list Z :=
  for_range (length data) 0
    (fun i samples => i16_set samples i (data !! i ≫= table_get))
    (i16_new (length data)).

(** The search [for (exp = 0; exp < 8; exp++) if (sample < (1 << (exp + 3)))]
    with its default of 7. *)
Fixpoint find_exponent (fuel : nat) (exp sample : Z) : Z :=
  match fuel with
  | O => 7
  | S k =>
      if sample <? JS.shl 1 (exp + 3) then exp
      else find_exponent k (exp + 1) sample
  end.

(** Sign, exponent and mantissa chosen by [encodeMulaw] for one sample. *)
Definition encode_fields (x : Z) : Z * Z * Z :=
  let sample := if x <? -32768 then -32768 else x in
  let sample := if sample >? 32767 then 32767 else sample in
  let sign := if sample <? 0 then 0x80 else 0 in
  let sample := if sample <? 0 then - sample else sample in
  let sample := sample + 0x84 in
  let exponent := find_exponent 8 0 sample in
  let mantissa := JS.and (JS.shr sample (exponent + 3)) 0x0F in
  (sign, exponent, mantissa).

Definition encode_exponent (x : Z) : Z := snd (fst (encode_fields x)).

(** The byte stored in the Buffer: [~(sign | (exponent << 4) | mantissa)]. *)
Definition encode_sample (x : Z) : Z :=
  let '(sign, exponent, mantissa) := encode_fields x in
  to_uint8 (JS.not (JS.or (JS.or sign (JS.shl exponent 4)) mantissa)).

(** [Buffer.alloc] gives zeroes; every index the loop reads is in range. *)
Definition encodeMulaw (pcmData : list Z) : list Z :=
  for_range (length pcmData) 0
    (fun i buffer =>
       match pcmData !! i with
       | Some x => <[i := encode_sample x]> buffer
       | None => buffer
       end)
    (replicate (length pcmData) 0).

Definition resample8kTo16k (input : list Z) : list Z :=
  for_range (length input) 0
    (fun i output =>
       let output := i16_set output (i * 2) (i16_get input i) in
       i16_set output (i * 2 + 1) (i16_get input i))
    (i16_new (length input * 2)).

Definition resample24kTo8k (input : list Z) : list Z :=
  let n := (length input / 3)%nat in
  for_range n 0
    (fun i output => i16_set output i (i16_get input (i * 3)))
    (i16_new n).

(** The companding law of the specification, over unbounded integers:
    [sign * ((((mantissa << 3) + bias) << exponent) - bias)], bias 0x84. *)
Definition bias : Z := 0x84.

Definition companding_expand (b : Z) : Z :=
  let sign := if Z.testbit b 7 then -1 else 1 in
  let exponent := Z.land (Z.shiftr b 4) 7 in
  let mantissa := Z.land b 15 in
  sign * (Z.shiftl (Z.shiftl mantissa 3 + bias) exponent - bias).

(** One step of the mantissa at exponent [e] moves the decoded value by
    [8 << e]. *)
Definition quant_step (e : Z) : Z := Z.shiftl 8 e.

(** The check that one table entry is the law's value, a 16-bit one. *)
Definition entry_ok (b : Z) : bool :=
  match table_get b with
  | Some v =>
      (v =? companding_expand b) && (-32768 <=? v) && (v <=? 32767)
  | None => false
  end.

End Codec.

(** ** The remote AI session and the calls the bridges make

    The SDK, the sockets and the browser's audio devices are outside the
    repository: every call a handler makes on one of them is recorded, in
    order, as a [Call]. *)

Module Remote.

(** A JSON value of a tool call's arguments; an object is the list of
    its properties. *)
Inductive JVal :=
| JStr (s : string)
| JNum (q : Q)
| JBool (b : bool)
| JNull.

Definition Args := list (string * JVal).

Record FunctionCall := {
  call_id : string;
  call_name : string;
  call_args : Args
}.

(** A [LiveServerMessage] as the handlers read it: [inlineData] is
    [msg.serverContent?.modelTurn?.parts?.[0]?.inlineData?.data], given by
    the 16-bit PCM samples its base64 text carries (the empty text is the
    empty list); [toolCall] is [msg.toolCall] with its [functionCalls]: a
    tool call that lacks the list is not represented. *)
Record LiveServerMessage := {
  inlineData : option (list Z);
  toolCall : option (list FunctionCall)
}.

(** [if (audioData)]: [undefined] and the empty text are falsy. *)
Definition truthy (d : option (list Z)) : option (list Z) :=
  match d with
  | Some (x :: l) => Some (x :: l)
  | _ => None
  end.

(** The session object the connect promise resolves to. *)
Record Session := {
  session_id : nat;
  has_close : bool;
  close_throws : bool
}.

(** What [sendRealtimeInput] is given: the MIME type
    [audio/pcm;rate=N], by its [N], and the samples. *)
Record Media := {
  rate : Z;
  pcm : list Z
}.

Inductive Call :=
| ConsoleLog (text : string)
| ConsoleWarn (text : string)
| ConsoleError (text : string)
| GetUserMedia
| NewAudioContext
| ContextResume
| CreateMediaStreamSource
| CreateScriptProcessor (bufferSize : Z)
| ConnectNodes
| TrackStop (track : nat)
| SourceDisconnect
| ProcessorDisconnect
| ContextClose
| LiveConnect
| SendRealtimeInput (media : Media)
| SendToolResponse (id name result : string)
| SessionClose (sid : nat)
| OnConnect
| OnDisconnect
| OnAudioData (payload : list Z)
| OnToolCall (args : Args)
| OnError (message : string)
| WsSend (streamSid : string) (mulaw : list Z)
| WsClose.

(** Projections of a list of calls. *)
Definition deliveries (cs : list Call) : list Args :=
  omap (fun c => match c with OnToolCall a => Some a | _ => None end) cs.

Definition acks (cs : list Call) : list string :=
  omap (fun c => match c with SendToolResponse id _ _ => Some id | _ => None end) cs.

Definition realtime_inputs (cs : list Call) : list Media :=
  omap (fun c => match c with SendRealtimeInput m => Some m | _ => None end) cs.

Definition logged (cs : list Call) : list string :=
  omap (fun c =>
          match c with
          | ConsoleLog t | ConsoleWarn t | ConsoleError t => Some t
          | _ => None
          end) cs.

(** The releases of the four resources of a session, counted. *)
Definition count (p : Call -> bool) (cs : list Call) : nat :=
  length (List.filter p cs).

Definition session_closes : list Call -> nat :=
  count (fun c => match c with SessionClose _ => true | _ => false end).
Definition track_stops (t : nat) : list Call -> nat :=
  count (fun c => match c with TrackStop t' => Nat.eqb t t' | _ => false end).
Definition source_disconnects : list Call -> nat :=
  count (fun c => match c with SourceDisconnect => true | _ => false end).
Definition processor_disconnects : list Call -> nat :=
  count (fun c => match c with ProcessorDisconnect => true | _ => false end).
Definition context_closes : list Call -> nat :=
  count (fun c => match c with ContextClose => true | _ => false end).
Definition live_connects : list Call -> nat :=
  count (fun c => match c with LiveConnect => true | _ => false end).

(** The releases of [cleanup], and the sends to the remote session. *)
Definition is_release (c : Call) : bool :=
  match c with
  | TrackStop _ | SourceDisconnect | ProcessorDisconnect | ContextClose => true
  | _ => false
  end.

Definition is_remote_send (c : Call) : bool :=
  match c with
  | SendRealtimeInput _ | SendToolResponse _ _ _ => true
  | _ => false
  end.

End Remote.

(** ** The telephony bridge: [wss.on("connection", ...)] of
    [twilio-server.ts] *)

Module Telephony.
Import Remote.
Local Open Scope string_scope.
Local Open Scope list_scope.

(** The variables of one connection. [listening] says that the handler
    has gone past [geminiSession = await sessionPromise] and registered
    [ws.on("message")] and [ws.on("close")]. *)
Record Conn := {
  streamSid : string;
  geminiSession : option Session;
  listening : bool
}.

Definition new_conn : Conn :=
  {| streamSid := EmptyString; geminiSession := None; listening := false |}.

(** A parsed message of the media socket, by its [event] field. *)
Inductive TwilioMsg :=
| MsgStart (sid : string)
| MsgMedia (payload : list Z)
| MsgStop
| MsgOther (event : string).

Definition on_connection (c : Conn) : Conn * list Call :=
  (c, [ConsoleLog "New Twilio Connection"; LiveConnect]).

(** The callbacks given to [client.live.connect]. *)
Definition onopen (c : Conn) : Conn * list Call :=
  (c, [ConsoleLog "Gemini Connected"]).

(** [pcm24k] stands for the [Int16Array] that the callback builds over
    the buffer of the decoded payload; the model takes the samples of
    the payload for it. *)
Definition onmessage (msg : LiveServerMessage) (c : Conn) : Conn * list Call :=
  let audio :=
    match truthy (inlineData msg) with
    | Some pcm24k =>
        let pcm8k := Codec.resample24kTo8k pcm24k in
        let mulaw := Codec.encodeMulaw pcm8k in
        [WsSend (streamSid c) mulaw]
    | None => []
    end in
  let tool :=
    match toolCall msg with
    | Some _ => [ConsoleLog "Tool Call:"]
    | None => []
    end in
  (c, audio ++ tool).

Definition onclose (c : Conn) : Conn * list Call :=
  (c, [ConsoleLog "Gemini Closed"]).

Definition onerror (c : Conn) : Conn * list Call :=
  (c, [ConsoleError "Gemini Error"]).

(** [geminiSession = await sessionPromise], then the two [ws.on]. *)
Definition handshake_resolved (sess : Session) (c : Conn) : Conn * list Call :=
  ({| streamSid := streamSid c; geminiSession := Some sess; listening := true |}, []).

(** The [catch] branch: the handler returns before registering anything. *)
Definition handshake_failed (c : Conn) : Conn * list Call :=
  (c, [ConsoleError "Failed to connect to Gemini"; WsClose]).

(** [geminiSession?.close()]. *)
Definition close_session (c : Conn) : list Call :=
  match geminiSession c with
  | Some sess => [SessionClose (session_id sess)]
  | None => []
  end.

Definition on_ws_message (m : TwilioMsg) (c : Conn) : Conn * list Call :=
  match m with
  | MsgStart sid =>
      ({| streamSid := sid; geminiSession := geminiSession c; listening := listening c |},
       [ConsoleLog (String.append "Stream started: " sid)])
  | MsgMedia payload =>
      match geminiSession c with
      | Some _ =>
          let pcm8k := Codec.decodeMulaw payload in
          let pcm16k := Codec.resample8kTo16k pcm8k in
          (c, [SendRealtimeInput {| rate := 16000; pcm := pcm16k |}])
      | None => (c, [])
      end
  | MsgStop => (c, ConsoleLog "Stream stopped" :: close_session c)
  | MsgOther _ => (c, [])
  end.

Definition on_ws_close (c : Conn) : Conn * list Call :=
  (c, ConsoleLog "Twilio Disconnected" :: close_session c).

(** What can happen to a connection. A socket event that arrives while
    no listener is registered reaches no code. *)
Inductive Event :=
| Connection
| GeminiOpen
| GeminiMessage (msg : LiveServerMessage)
| GeminiClose
| GeminiError
| HandshakeResolved (sess : Session)
| HandshakeFailed
| WsMessage (m : TwilioMsg)
| WsClosed.

Definition step (c : Conn) (e : Event) : Conn * list Call :=
  match e with
  | Connection => on_connection c
  | GeminiOpen => onopen c
  | GeminiMessage msg => onmessage msg c
  | GeminiClose => onclose c
  | GeminiError => onerror c
  | HandshakeResolved sess => handshake_resolved sess c
  | HandshakeFailed => handshake_failed c
  | WsMessage m => if listening c then on_ws_message m c else (c, [])
  | WsClosed => if listening c then on_ws_close c else (c, [])
  end.

Fixpoint run (c : Conn) (es : list Event) : Conn * list Call :=
  match es with
  | [] => (c, [])
  | e :: es' =>
      let (c1, out1) := step c e in
      let (c2, out2) := run c1 es' in
      (c2, out1 ++ out2)
  end.

Definition is_resolution (e : Event) : bool :=
  match e with
  | HandshakeResolved _ => true
  | _ => false
  end.

End Telephony.

(** ** The interactive bridge: [GeminiLiveService] *)

Module Live.
Import Remote.
Local Open Scope string_scope.
Local Open Scope list_scope.

Inductive Node := MediaStreamSource | ScriptProcessor.

(** A callback registered with [sessionPromise.then]. *)
Inductive Then :=
| ThenSendAudio (media : Media)
| ThenSendAck (id name : string).

(** The promise returned by [client.live.connect], with the callbacks
    waiting on it in registration order. *)
Inductive Promise :=
| NotCreated
| Pending (thens : list Then)
| Resolved (sess : Session)
| Rejected.

(** The fields of the class, then the two constants that the callbacks
    of a [startSession] call close over ([sessionPromise] and
    [actualSampleRate]; the model follows the callbacks of the latest
    call). The audio context is given by its sample rate and the stream
    by its tracks. Every handler runs to its end before the next event;
    the awaits of [startSession] are the events [EResolve] and
    [EReject]. *)
Record Service := {
  session : option Session;
  inputAudioContext : option Z;
  inputSource : option Node;
  processor : option Node;
  stream : option (list nat);
  isActive : bool;
  sessionPromise : Promise;
  actualSampleRate : Z
}.

Definition new_service : Service :=
  {| session := None; inputAudioContext := None; inputSource := None;
     processor := None; stream := None; isActive := false;
     sessionPromise := NotCreated; actualSampleRate := 0 |}.

Definition set_session (v : option Session) (s : Service) : Service :=
  {| session := v; inputAudioContext := inputAudioContext s;
     inputSource := inputSource s; processor := processor s;
     stream := stream s; isActive := isActive s;
     sessionPromise := sessionPromise s; actualSampleRate := actualSampleRate s |}.

Definition set_inputAudioContext (v : option Z) (s : Service) : Service :=
  {| session := session s; inputAudioContext := v;
     inputSource := inputSource s; processor := processor s;
     stream := stream s; isActive := isActive s;
     sessionPromise := sessionPromise s; actualSampleRate := actualSampleRate s |}.

Definition set_nodes (src prc : option Node) (s : Service) : Service :=
  {| session := session s; inputAudioContext := inputAudioContext s;
     inputSource := src; processor := prc;
     stream := stream s; isActive := isActive s;
     sessionPromise := sessionPromise s; actualSampleRate := actualSampleRate s |}.

Definition set_stream (v : option (list nat)) (s : Service) : Service :=
  {| session := session s; inputAudioContext := inputAudioContext s;
     inputSource := inputSource s; processor := processor s;
     stream := v; isActive := isActive s;
     sessionPromise := sessionPromise s; actualSampleRate := actualSampleRate s |}.

Definition set_isActive (v : bool) (s : Service) : Service :=
  {| session := session s; inputAudioContext := inputAudioContext s;
     inputSource := inputSource s; processor := processor s;
     stream := stream s; isActive := v;
     sessionPromise := sessionPromise s; actualSampleRate := actualSampleRate s |}.

Definition set_closure (p : Promise) (r : Z) (s : Service) : Service :=
  {| session := session s; inputAudioContext := inputAudioContext s;
     inputSource := inputSource s; processor := processor s;
     stream := stream s; isActive := isActive s;
     sessionPromise := p; actualSampleRate := r |}.

(** Handlers return the new state and the calls they made. *)
Definition Handler := Service -> Service * list Call.

Definition and_then (h1 h2 : Handler) : Handler :=
  fun s =>
    let (s1, out1) := h1 s in
    let (s2, out2) := h2 s1 in
    (s2, out1 ++ out2).

Definition emit (cs : list Call) : Handler := fun s => (s, cs).

Notation "h1 >>> h2" := (and_then h1 h2) (at level 62, right associativity).

(** Running a registered callback on the resolved session. *)
Definition run_then (t : Then) : Call :=
  match t with
  | ThenSendAudio m => SendRealtimeInput m
  | ThenSendAck id name => SendToolResponse id name "Assessment Logged"
  end.

(** [sessionPromise.then(cb)]: on a resolved promise the callback runs
    as a microtask, after the handler's own calls; on a pending one it
    waits; on a rejected one it never runs. *)
Definition promise_then (t : Then) : Handler :=
  fun s =>
    match sessionPromise s with
    | Resolved _ => (s, [run_then t])
    | Pending q => (set_closure (Pending (q ++ [t])) (actualSampleRate s) s, [])
    | Rejected | NotCreated => (s, [])
    end.

Fixpoint promise_thens (ts : list Then) : Handler :=
  match ts with
  | [] => emit []
  | t :: ts' => promise_then t >>> promise_thens ts'
  end.

Definition cleanup : Handler :=
  fun s =>
    let s := set_isActive false s in
    let (s, stops) :=
      match stream s with
      | Some tracks => (set_stream None s, map TrackStop tracks)
      | None => (s, [])
      end in
    let disconnects :=
      match processor s, inputSource s with
      | Some _, Some _ => [SourceDisconnect; ProcessorDisconnect]
      | _, _ => []
      end in
    let (s, closes) :=
      match inputAudioContext s with
      | Some _ => (set_inputAudioContext None s, [ContextClose])
      | None => (s, [])
      end in
    (s, stops ++ disconnects ++ closes).

(** What the awaits of [startSession] meet: the stream of
    [getUserMedia] or its rejection, and the new context's state and
    sample rate. *)
Record StartEnv := {
  media : option (list nat);
  failure : string;
  suspended : bool;
  sampleRate : Z
}.

(** [startSession] up to [await sessionPromise]. *)
Definition startSession (env : StartEnv) : Handler :=
  fun s =>
    if isActive s then (s, [])
    else
      match media env with
      | Some tracks =>
          let s := set_stream (Some tracks) s in
          let s := set_inputAudioContext (Some (sampleRate env)) s in
          let s := set_closure (Pending []) (sampleRate env) s in
          (s, [GetUserMedia; NewAudioContext]
                ++ (if suspended env then [ContextResume] else [])
                ++ [LiveConnect])
      | None =>
          (emit [GetUserMedia; ConsoleError "Failed to start session:";
                 OnError (failure env)] >>> cleanup) s
      end.

(** The continuation of [await sessionPromise], then the callbacks that
    were waiting on the promise. *)
Definition promise_resolved (sess : Session) : Handler :=
  fun s =>
    match sessionPromise s with
    | Pending q =>
        let s := set_session (Some sess) s in
        (set_closure (Resolved sess) (actualSampleRate s) s, map run_then q)
    | _ => (s, [])
    end.

(** The [catch] of [startSession] when the promise rejects. *)
Definition promise_rejected (message : string) : Handler :=
  fun s =>
    match sessionPromise s with
    | Pending _ =>
        (emit [ConsoleError "Failed to start session:"; OnError message] >>> cleanup)
          (set_closure Rejected (actualSampleRate s) s)
    | _ => (s, [])
    end.

Definition onopen : Handler :=
  fun s =>
    let s := set_isActive true s in
    let pre := [ConsoleLog "Gemini Live Connected"; OnConnect] in
    match inputAudioContext s, stream s with
    | Some _, Some _ =>
        (set_nodes (Some MediaStreamSource) (Some ScriptProcessor) s,
         pre ++ [CreateMediaStreamSource; CreateScriptProcessor 4096;
                 ConnectNodes; ConnectNodes])
    | _, _ => (s, pre)
    end.

(** Modelled from the spec: [createPcmBlob] of [audioUtils], which is
    not among the sources; the blob is linear PCM tagged with the
    sample rate it is given. *)
Definition createPcmBlob (inputData : list Z) (sampleRate : Z) : Media :=
  {| rate := sampleRate; pcm := inputData |}.

Definition onaudioprocess (inputData : list Z) : Handler :=
  fun s =>
    if negb (isActive s) then (s, [])
    else promise_then (ThenSendAudio (createPcmBlob inputData (actualSampleRate s))) s.

(** The loop over [msg.toolCall.functionCalls]: the calls made in the
    loop, and the callbacks it registers on the promise. *)
Fixpoint handle_calls (fcs : list FunctionCall) : list Call * list Then :=
  match fcs with
  | [] => ([], [])
  | call :: rest =>
      let (cs, ts) := handle_calls rest in
      if String.eqb (call_name call) "report_outcome"
      then (OnToolCall (call_args call) :: cs,
            ThenSendAck (call_id call) (call_name call) :: ts)
      else (cs, ts)
  end.

(** The message callback, one run of it from its first statement to
    its last. The callback is [async]: a message with audio awaits
    [decodeAudioData] before [onAudioData] and the loop, so other
    callbacks may run in between; a message without audio reaches no
    [await] and runs to its end when it is called (see
    [no_audio_event]). *)
Definition onmessage (msg : LiveServerMessage) : Handler :=
  fun s =>
    let audio :=
      match truthy (inlineData msg) with
      | Some payload => [OnAudioData payload]
      | None => []
      end in
    let (cs, ts) :=
      match toolCall msg with
      | Some fcs => handle_calls fcs
      | None => ([], [])
      end in
    (emit (audio ++ cs) >>> promise_thens ts) s.

Definition onclose : Handler :=
  emit [ConsoleLog "Session Closed"; OnDisconnect] >>> cleanup.

Definition onerror : Handler :=
  emit [ConsoleError "Session Error"; OnError "Connection error"] >>> cleanup.

Definition stopSession : Handler :=
  fun s =>
    let closing :=
      match session s with
      | Some sess =>
          if has_close sess
          then SessionClose (session_id sess)
                 :: (if close_throws sess
                     then [ConsoleWarn "Could not strictly close session"]
                     else [])
          else []
      | None => []
      end in
    (emit closing >>> cleanup) s.

(** What can happen to the service. The audio callback exists once
    [onopen] has created the processor. *)
Inductive Event :=
| EStart (env : StartEnv)
| EResolve (sess : Session)
| EReject (message : string)
| EOpen
| EAudio (inputData : list Z)
| EMessage (msg : LiveServerMessage)
| EClose
| EError
| EStop.

Definition step (s : Service) (e : Event) : Service * list Call :=
  match e with
  | EStart env => startSession env s
  | EResolve sess => promise_resolved sess s
  | EReject message => promise_rejected message s
  | EOpen => onopen s
  | EAudio inputData =>
      match processor s with
      | Some _ => onaudioprocess inputData s
      | None => (s, [])
      end
  | EMessage msg => onmessage msg s
  | EClose => onclose s
  | EError => onerror s
  | EStop => stopSession s
  end.

Fixpoint run (s : Service) (es : list Event) : Service * list Call :=
  match es with
  | [] => (s, [])
  | e :: es' =>
      let (s1, out1) := step s e in
      let (s2, out2) := run s1 es' in
      (s2, out1 ++ out2)
  end.

Definition is_resolution (e : Event) : bool :=
  match e with
  | EResolve _ => true
  | _ => false
  end.

(** The verdict invocations of a message, in order. *)
Definition reports (msg : LiveServerMessage) : list FunctionCall :=
  match toolCall msg with
  | Some fcs => List.filter (fun c => String.eqb (call_name c) "report_outcome") fcs
  | None => []
  end.

(** The validation that section 4.4 of the specification asks for:
    [verdict] is one of the two values, [reason] is a text and
    [confidence] a number. *)
Definition lookup_arg (k : string) (a : Args) : option JVal :=
  snd <$> List.find (fun kv => String.eqb (fst kv) k) a.

Definition valid_verdict (a : Args) : bool :=
  match lookup_arg "verdict" a, lookup_arg "reason" a, lookup_arg "confidence" a with
  | Some (JStr v), Some (JStr _), Some (JNum _) =>
      String.eqb v "scam" || String.eqb v "safe"
  | _, _, _ => false
  end.

(** The calls that [onmessage] makes in its own turn for a message, and
    the callbacks it registers. *)
Definition verdict_calls (msg : LiveServerMessage) : list Call :=
  map (fun c => OnToolCall (call_args c)) (reports msg).

Definition verdict_thens (msg : LiveServerMessage) : list Then :=
  map (fun c => ThenSendAck (call_id c) (call_name c)) (reports msg).

Definition audio_calls (msg : LiveServerMessage) : list Call :=
  match truthy (inlineData msg) with
  | Some payload => [OnAudioData payload]
  | None => []
  end.

(** The verdicts an event delivers. *)
Definition delivered_by (e : Event) : list Args :=
  match e with
  | EMessage msg => map call_args (reports msg)
  | _ => []
  end.

(** The events whose handler runs to its end when the event arrives:
    all but a message with audio, whose callback awaits the decoding of
    the audio. *)
Definition no_audio_event (e : Event) : bool :=
  match e with
  | EMessage msg =>
      match truthy (inlineData msg) with
      | Some _ => false
      | None => true
      end
  | _ => true
  end.

(** The session promise has not resolved. *)
Definition unresolved (s : Service) : Prop :=
  match sessionPromise s with
  | Resolved _ => False
  | _ => True
  end.

Definition is_open (e : Event) : bool :=
  match e with
  | EOpen => true
  | _ => false
  end.

(** The service is not active and no audio waits on the promise. *)
Definition before_open (s : Service) : Prop :=
  isActive s = false /\
  match sessionPromise s with
  | Pending q => realtime_inputs (map run_then q) = []
  | _ => True
  end.

End Live.

(** ** The Simulator component: playback cursor and session callbacks

    Times are JavaScript numbers in seconds; the component only compares
    and adds them, and they are modelled as exact rationals. *)

Module Simulator.
Import Remote.
Local Open Scope string_scope.
Local Open Scope list_scope.

Inductive Status := idle | connected | assessing | finished.

Inductive CallStatus := SCAM_DETECTED | LEGITIMATE.

Record AudioBuffer := { duration : Q }.

(** The calls the component makes on the service, the output context
    and its parent. *)
Inductive UiCall :=
| CreateOutputContext
| OutputResume
| ServiceStart
| ServiceStop
| SourceStart (startTime : Q)
| AddCallLog (st : CallStatus) (summary confidenceScore : option JVal)
| SetTimeoutHangUp (ms : Z).

(** The React state, then the refs: whether [audioContextRef.current]
    and [analyserRef.current] are set, and [nextStartTimeRef.current]. *)
Record Sim := {
  isConnected : bool;
  status : Status;
  assessment : option Args;
  error : option string;
  audioContextRef : bool;
  analyserRef : bool;
  nextStartTimeRef : Q
}.

Definition new_sim : Sim :=
  {| isConnected := false; status := idle; assessment := None; error := None;
     audioContextRef := false; analyserRef := false; nextStartTimeRef := 0%Q |}.

Definition set_state (c : bool) (st : Status) (a : option Args) (e : option string)
    (s : Sim) : Sim :=
  {| isConnected := c; status := st; assessment := a; error := e;
     audioContextRef := audioContextRef s; analyserRef := analyserRef s;
     nextStartTimeRef := nextStartTimeRef s |}.

Definition set_refs (ctx an : bool) (s : Sim) : Sim :=
  {| isConnected := isConnected s; status := status s;
     assessment := assessment s; error := error s;
     audioContextRef := ctx; analyserRef := an;
     nextStartTimeRef := nextStartTimeRef s |}.

Definition set_nextStartTime (t : Q) (s : Sim) : Sim :=
  {| isConnected := isConnected s; status := status s;
     assessment := assessment s; error := error s;
     audioContextRef := audioContextRef s; analyserRef := analyserRef s;
     nextStartTimeRef := t |}.

(** [initializeAudio]; [suspended] is the state the context reports. *)
Definition initializeAudio (suspended : bool) (s : Sim) : Sim * list UiCall :=
  let (s, made) :=
    if audioContextRef s then (s, [])
    else (set_refs true true s, [CreateOutputContext]) in
  (s, made ++ (if audioContextRef s && suspended then [OutputResume] else [])).

Definition handleStartCall (suspended : bool) (s : Sim) : Sim * list UiCall :=
  let s := set_state (isConnected s) (status s) None None s in
  let (s, out) := initializeAudio suspended s in
  if negb (audioContextRef s) then (s, out)
  else (set_state (isConnected s) connected (assessment s) (error s) s,
        out ++ [ServiceStart]).

Definition onConnect (s : Sim) : Sim * list UiCall :=
  (set_state true (status s) (assessment s) (error s) s, []).

Definition onDisconnect (s : Sim) : Sim * list UiCall :=
  (set_state false idle (assessment s) (error s) s, []).

Definition onError (message : string) (s : Sim) : Sim * list UiCall :=
  (set_state false idle (assessment s) (Some message) s, []).

Definition onAudioData (buffer : AudioBuffer) (currentTime : Q) (s : Sim)
    : Sim * list UiCall :=
  if negb (audioContextRef s) || negb (analyserRef s) then (s, [])
  else
    let startTime := Qmax (nextStartTimeRef s) currentTime in
    (set_nextStartTime (startTime + duration buffer)%Q s, [SourceStart startTime]).

(** The callback with the addition as the engine performs it: times
    are doubles, and [startTime + buffer.duration] is the exact sum
    rounded to a double by [round]. [onAudioData] above is the case of
    an exact sum. *)
Definition onAudioData_rounded (round : Q -> Q)
    (buffer : AudioBuffer) (currentTime : Q) (s : Sim) : Sim * list UiCall :=
  if negb (audioContextRef s) || negb (analyserRef s) then (s, [])
  else
    let startTime := Qmax (nextStartTimeRef s) currentTime in
    (set_nextStartTime (round (startTime + duration buffer)%Q) s, [SourceStart startTime]).

(** The callback called once for each buffer, with the clock it finds. *)
Fixpoint play_rounded (round : Q -> Q) (items : list (AudioBuffer * Q)) (s : Sim)
    : Sim * list UiCall :=
  match items with
  | [] => (s, [])
  | (buffer, currentTime) :: rest =>
      let (s1, out1) := onAudioData_rounded round buffer currentTime s in
      let (s2, out2) := play_rounded round rest s1 in
      (s2, out1 ++ out2)
  end.

Definition field (k : string) (a : Args) : option JVal :=
  snd <$> List.find (fun kv => String.eqb (fst kv) k) a.

Definition onToolCall (response : Args) (s : Sim) : Sim * list UiCall :=
  let st :=
    match field "verdict" response with
    | Some (JStr v) => if String.eqb v "scam" then SCAM_DETECTED else LEGITIMATE
    | _ => LEGITIMATE
    end in
  (set_state (isConnected s) finished (Some response) (error s) s,
   [AddCallLog st (field "reason" response) (field "confidence" response);
    SetTimeoutHangUp 4000]).

Definition handleHangUp (s : Sim) : Sim * list UiCall :=
  (set_nextStartTime 0%Q (set_state false idle (assessment s) (error s) s),
   [ServiceStop]).

(** What can happen to the component: the two buttons, the timer of
    [onToolCall] (which is [HangUp] too) and the service's callbacks. *)
Inductive Event :=
| StartCall (suspended : bool)
| HangUp
| Connected
| Disconnected
| Failed (message : string)
| AudioData (buffer : AudioBuffer) (currentTime : Q)
| ToolCall (response : Args).

Definition step (s : Sim) (e : Event) : Sim * list UiCall :=
  match e with
  | StartCall suspended => handleStartCall suspended s
  | HangUp => handleHangUp s
  | Connected => onConnect s
  | Disconnected => onDisconnect s
  | Failed message => onError message s
  | AudioData buffer currentTime => onAudioData buffer currentTime s
  | ToolCall response => onToolCall response s
  end.

Fixpoint run (s : Sim) (es : list Event) : Sim * list UiCall :=
  match es with
  | [] => (s, [])
  | e :: es' =>
      let (s1, out1) := step s e in
      let (s2, out2) := run s1 es' in
      (s2, out1 ++ out2)
  end.

(** The events after which the session is over. *)
Definition ends_session (e : Event) : bool :=
  match e with
  | HangUp | Disconnected | Failed _ => true
  | _ => false
  end.

Definition starts (cs : list UiCall) : list Q :=
  omap (fun c => match c with SourceStart t => Some t | _ => None end) cs.

End Simulator.

(** ** Sessions and messages used as examples *)

Module Scenario.
Import Remote.
Local Open Scope string_scope.
Local Open Scope list_scope.

(** A message whose tool call is one invocation of the verdict
    function. *)
Definition verdict_invocation (id : string) (a : Args) : LiveServerMessage :=
  {| inlineData := None;
     toolCall := Some [{| call_id := id; call_name := "report_outcome"; call_args := a |}] |}.

Definition scam_args : Args :=
  [("verdict", JStr "scam"); ("reason", JStr "IRS gift-card demand");
   ("confidence", JNum 98)].

Definition safe_args : Args :=
  [("verdict", JStr "safe"); ("reason", JStr "pharmacy reminder");
   ("confidence", JNum 90)].

Definition no_verdict_args : Args :=
  [("reason", JStr "caller hung up"); ("confidence", JNum 40)].

Definition env0 : Live.StartEnv :=
  {| Live.media := Some [0%nat]; Live.failure := "NotAllowedError";
     Live.suspended := false; Live.sampleRate := 48000 |}.

Definition sess0 : Session :=
  {| session_id := 1; has_close := true; close_throws := false |}.

(** A session of the interactive bridge brought to its active state. *)
Definition established : list Live.Event :=
  [Live.EStart env0; Live.EOpen; Live.EResolve sess0].

Definition active_service : Live.Service :=
  fst (Live.run Live.new_service established).

(** A rounding to use in examples: to the nearest multiple of one
    eighth. *)
Definition round_to_eighths (x : Q) : Q :=
  Qmake (Qfloor (x * 8 + (1 # 2))%Q) 8.

End Scenario.


(** ** The dashboard counters: [addCallLog] of [Dashboard.tsx]

    The enumeration [CallStatus] is declared outside the sources; the
    update is given over any type of statuses with its equality test
    and the two members the update compares with. *)

Module Dashboard.
Local Open Scope Z_scope.

Record DashboardStats := {
  totalCalls : Z;
  scamsBlocked : Z;
  callsForwarded : Z;
  avgThreatLevel : Z
}.

(** The initial state of [stats]. *)
Definition initial_stats : DashboardStats :=
  {| totalCalls := 142; scamsBlocked := 89; callsForwarded := 53;
     avgThreatLevel := 62 |}.

Section Counters.
Variable Status : Type.
Variable status_eqb : Status -> Status -> bool.
Variables SCAM_DETECTED LEGITIMATE : Status.

(** The function given to [setStats] for a log of the given status. *)
Definition count_call (status : Status) (prev : DashboardStats) : DashboardStats :=
  {| totalCalls := totalCalls prev + 1;
     scamsBlocked :=
       if status_eqb status SCAM_DETECTED then scamsBlocked prev + 1
       else scamsBlocked prev;
     callsForwarded :=
       if status_eqb status LEGITIMATE then callsForwarded prev + 1
       else callsForwarded prev;
     avgThreatLevel := avgThreatLevel prev |}.

(** The updates of a sequence of logs, applied in order. *)
Definition count_calls (statuses : list Status) (prev : DashboardStats) : DashboardStats :=
  fold_left (fun st status => count_call status st) statuses prev.

End Counters.

(** The value shown on the card of blocked calls. *)
Definition shown_blocked (st : DashboardStats) : Z :=
  totalCalls st - callsForwarded st.

End Dashboard.


(** ** Observations used by the further properties *)

Module Observe.
Import Remote.

(** The frame the telephony bridge submits for one media payload. *)
Definition telephony_frame (payload : list Z) : Media :=
  {| rate := 16000; pcm := Codec.resample8kTo16k (Codec.decodeMulaw payload) |}.


Definition is_handshake (e : Telephony.Event) : bool :=
  match e with
  | Telephony.HandshakeResolved _ => true
  | _ => false
  end.


Definition errors_reported (cs : list Call) : list string :=
  omap (fun c => match c with OnError m => Some m | _ => None end) cs.

Definition disconnects_reported : list Call -> nat :=
  count (fun c => match c with OnDisconnect => true | _ => false end).

Definition user_media_requests : list Call -> nat :=
  count (fun c => match c with GetUserMedia => true | _ => false end).

(** The tracks stopped, in order. *)
Definition tracks_stopped (cs : list Call) : list nat :=
  omap (fun c => match c with TrackStop t => Some t | _ => None end) cs.

(** The output contexts the Simulator creates, and the audio events of
    a list of buffers with the clock time each one meets. *)
Definition contexts_created (cs : list Simulator.UiCall) : nat :=
  length (List.filter
            (fun c => match c with Simulator.CreateOutputContext => true | _ => false end)
            cs).

Definition audio_events (items : list (Simulator.AudioBuffer * Q)) : list Simulator.Event :=
  map (fun it => Simulator.AudioData (fst it) (snd it)) items.

(** The statuses the Simulator hands to [addCallLog]. *)
Definition logged_statuses (cs : list Simulator.UiCall) : list Simulator.CallStatus :=
  omap (fun c => match c with Simulator.AddCallLog st _ _ => Some st | _ => None end) cs.

Definition status_eqb (a b : Simulator.CallStatus) : bool :=
  match a, b with
  | Simulator.SCAM_DETECTED, Simulator.SCAM_DETECTED => true
  | Simulator.LEGITIMATE, Simulator.LEGITIMATE => true
  | _, _ => false
  end.

(** The event ends the session of the interactive bridge. *)
Definition ends_live_session (e : Live.Event) : bool :=
  match e with
  | Live.EStop | Live.EClose | Live.EError => true
  | _ => false
  end.

End Observe.


(** * Properties *)

(** ** Conversions and loops *)

Module JSFacts.
Import JS.
Local Open Scope Z_scope.

Lemma to_int16_id v : is_int16 v -> to_int16 v = v.
Proof.
  unfold is_int16, to_int16. intros Hv.
  destruct (Z_lt_le_dec v 0) as [Hneg | Hpos].
  - replace (v mod 65536) with (v + 65536).
    + destruct (32768 <=? v + 65536) eqn:E; [lia | apply Z.leb_gt in E; lia].
    + apply Z.mod_unique with (q := -1); lia.
  - rewrite Z.mod_small by lia.
    destruct (32768 <=? v) eqn:E; [apply Z.leb_le in E; lia | reflexivity].
Qed.

Lemma to_int16_range v : is_int16 (to_int16 v).
Proof.
  unfold is_int16, to_int16.
  pose proof (Z.mod_pos_bound v 65536 ltac:(lia)) as Hm.
  destruct (32768 <=? v mod 65536) eqn:E;
    [apply Z.leb_le in E | apply Z.leb_gt in E]; lia.
Qed.

(** A loop establishes at its end what every iteration carries one
    index further. *)
Lemma for_range_inv {St : Type} (Inv : nat -> St -> Prop) (body : nat -> St -> St) :
  forall count i s,
    Inv i s ->
    (forall j t, (i <= j < i + count)%nat -> Inv j t -> Inv (S j) (body j t)) ->
    Inv (i + count)%nat (for_range count i body s).
Proof.
  induction count as [| c IH]; intros i s Hi Hstep; simpl.
  - now rewrite Nat.add_0_r.
  - replace (i + S c)%nat with (S i + c)%nat by lia.
    apply IH.
    + apply Hstep; [lia | exact Hi].
    + intros j t Hj. apply Hstep. lia.
Qed.

(** A loop that stores [f j] at index [j] for every [j] below the
    length builds the list of the [f j]. *)
Lemma for_range_tabulate (f : nat -> Z) (n : nat) (out : list Z) :
  length out = n ->
  for_range n 0 (fun j o => <[j := f j]> o) out = map f (seq 0 n).
Proof.
  intros Hlen.
  pose (Inv := fun (k : nat) (o : list Z) =>
                 length o = n /\ forall j, (j < k)%nat -> o !! j = Some (f j)).
  assert (Hend : Inv (0 + n)%nat (for_range n 0 (fun j o => <[j := f j]> o) out)).
  { apply for_range_inv.
    - split; [exact Hlen | intros j Hj; lia].
    - intros j t Hj [Hl Hlook]. split.
      + now rewrite length_insert.
      + intros k Hk. destruct (decide (k = j)) as [-> | Hne].
        * apply list_lookup_insert_eq. lia.
        * rewrite list_lookup_insert_ne by congruence. apply Hlook. lia. }
  destruct Hend as [Hl Hlook]. simpl in Hlook.
  apply list_eq. intros k.
  destruct (decide (k < n)%nat) as [Hk | Hk].
  - rewrite Hlook by exact Hk.
    rewrite list_lookup_fmap, lookup_seq_lt by exact Hk. reflexivity.
  - rewrite !lookup_ge_None_2; [reflexivity | | ].
    + rewrite length_map, length_seq. lia.
    + lia.
Qed.

(** Every byte value is one of the 256 that a check can enumerate. *)
Lemma byte_cases (P : Z -> bool) :
  forallb P (map Z.of_nat (seq 0 256)) = true ->
  forall b, is_byte b -> P b = true.
Proof.
  intros Hall b [Hlo Hhi].
  rewrite forallb_forall in Hall. apply Hall.
  rewrite <- (Z2Nat.id b) by exact Hlo.
  apply in_map, in_seq. lia.
Qed.

End JSFacts.

(** ** The codec layer *)

Module CodecProofs.
Import JS JSFacts Codec.
Local Open Scope Z_scope.

Lemma table_entries_ok : forallb entry_ok (map Z.of_nat (seq 0 256)) = true.
Proof. vm_compute. reflexivity. Qed.

Lemma table_get_law b :
  is_byte b -> table_get b = Some (companding_expand b) /\ is_int16 (companding_expand b).
Proof.
  intros Hb. pose proof (byte_cases entry_ok table_entries_ok b Hb) as Hok.
  unfold entry_ok in Hok. destruct (table_get b) as [v |]; [| discriminate].
  apply andb_prop in Hok as [Hok Hhi]. apply andb_prop in Hok as [Heq Hlo].
  apply Z.eqb_eq in Heq. apply Z.leb_le in Hlo, Hhi. subst v.
  split; [reflexivity | split; assumption].
Qed.

Lemma decodeMulaw_tabulate data :
  decodeMulaw data =
  map (fun j => store_int16 (data !! j ≫= table_get)) (seq 0 (length data)).
Proof.
  unfold decodeMulaw, i16_set.
  apply (for_range_tabulate (fun j => store_int16 (data !! j ≫= table_get))).
  apply length_replicate.
Qed.

Lemma decodeMulaw_bytes data :
  Forall is_byte data -> decodeMulaw data = map companding_expand data.
Proof.
  intros Hdata. rewrite decodeMulaw_tabulate. apply list_eq. intros k.
  rewrite !list_lookup_fmap.
  destruct (data !! k) as [b |] eqn:Hk.
  - rewrite lookup_seq_lt by (eapply lookup_lt_Some; eassumption).
    simpl. rewrite Hk. simpl.
    assert (Hb : is_byte b) by (eapply Forall_lookup_1; eassumption).
    destruct (table_get_law b Hb) as [-> Hr]. simpl.
    now rewrite to_int16_id.
  - rewrite lookup_seq_ge by (apply lookup_ge_None; exact Hk). reflexivity.
Qed.

(** C7. Decoding is total over the 256 byte values and follows the
    companding law: every byte [b] has an entry in the table, that entry
    is [sign * ((((mantissa << 3) + 0x84) << exponent) - 0x84)] for the
    sign bit, the 3-bit exponent and the 4-bit mantissa of [b], it is a
    16-bit value, and [decodeMulaw] maps every buffer of bytes to the
    list of these values, one per byte. *)
Theorem decode_table_law (b : Z) (data : list Z)
    (Hb : is_byte b) (Hdata : Forall is_byte data) :
  length MU_LAW_TABLE = 256%nat /\
  table_get b = Some (companding_expand b) /\
  is_int16 (companding_expand b) /\
  length (decodeMulaw data) = length data /\
  decodeMulaw data = map companding_expand data.
Proof.
  destruct (table_get_law b Hb) as [Hget Hrange].
  pose proof (decodeMulaw_bytes data Hdata) as Hdec.
  split; [vm_compute; reflexivity |].
  split; [exact Hget |].
  split; [exact Hrange |].
  split; [rewrite Hdec; apply length_map | exact Hdec].
Qed.

Lemma decode_table_law_witness :
  is_byte 0x8F /\ Forall is_byte [0; 0x8F; 0xFF] /\
  table_get 0x8F = Some (-120) /\
  decodeMulaw [0; 0x8F; 0xFF] = [0; -120; -32124].
Proof.
  assert (Hb : is_byte 0x8F) by (unfold is_byte; lia).
  assert (Hd : Forall is_byte [0; 0x8F; 0xFF])
    by (repeat constructor; unfold is_byte; lia).
  destruct (decode_table_law 0x8F [0; 0x8F; 0xFF] Hb Hd) as (_ & Hget & _ & _ & Hdec).
  split; [exact Hb |]. split; [exact Hd |].
  split; [exact Hget | exact Hdec].
Defined.

Lemma resample8kTo16k_spec input :
  length (resample8kTo16k input) = (2 * length input)%nat /\
  forall j, (j < length input)%nat ->
    resample8kTo16k input !! (2 * j)%nat = Some (store_int16 (input !! j)) /\
    resample8kTo16k input !! (2 * j + 1)%nat = Some (store_int16 (input !! j)).
Proof.
  set (n := length input).
  pose (Inv := fun (k : nat) (o : list Z) =>
    length o = (2 * n)%nat /\
    forall j, (j < k)%nat ->
      o !! (2 * j)%nat = Some (store_int16 (input !! j)) /\
      o !! (2 * j + 1)%nat = Some (store_int16 (input !! j))).
  assert (Hend : Inv (0 + n)%nat (resample8kTo16k input)).
  { unfold resample8kTo16k. apply for_range_inv.
    - split; [unfold i16_new; rewrite length_replicate; lia | intros j Hj; lia].
    - intros j t Hj [Hl Hlook]. unfold i16_set, i16_get. split.
      + now rewrite !length_insert.
      + intros k Hk. destruct (decide (k = j)) as [-> | Hne].
        * split.
          -- rewrite list_lookup_insert_ne by lia.
             replace (j * 2)%nat with (2 * j)%nat by lia.
             apply list_lookup_insert_eq. lia.
          -- replace (j * 2 + 1)%nat with (2 * j + 1)%nat by lia.
             apply list_lookup_insert_eq. rewrite length_insert. lia.
        * rewrite !list_lookup_insert_ne by lia. apply Hlook. lia. }
  exact Hend.
Qed.

Lemma resample24kTo8k_tabulate input :
  resample24kTo8k input =
  map (fun j => store_int16 (input !! (j * 3)%nat)) (seq 0 (length input / 3)).
Proof.
  unfold resample24kTo8k, i16_set, i16_get.
  apply (for_range_tabulate (fun j => store_int16 (input !! (j * 3)%nat))).
  apply length_replicate.
Qed.

(** C6. For every PCM sequence, [resample8kTo16k] returns twice as many
    samples, with each input sample at the two positions [2i] and
    [2i + 1], and [resample24kTo8k] returns [floor (len / 3)] samples,
    the [i]-th being the input's sample [3i]. *)
Theorem resample_laws (input : list Z) (Hpcm : Forall is_int16 input) :
  length (resample8kTo16k input) = (2 * length input)%nat /\
  (forall i x, input !! i = Some x ->
     resample8kTo16k input !! (2 * i)%nat = Some x /\
     resample8kTo16k input !! (2 * i + 1)%nat = Some x) /\
  length (resample24kTo8k input) = (length input / 3)%nat /\
  (forall i, (i < length input / 3)%nat ->
     resample24kTo8k input !! i = input !! (3 * i)%nat).
Proof.
  destruct (resample8kTo16k_spec input) as [Hlen Hup].
  split; [exact Hlen |]. split.
  - intros i x Hi.
    assert (Hx : is_int16 x) by (eapply Forall_lookup_1; eassumption).
    destruct (Hup i) as [H0 H1]; [eapply lookup_lt_Some; eassumption |].
    rewrite H0, H1, Hi. simpl. rewrite to_int16_id by exact Hx. now split.
  - rewrite resample24kTo8k_tabulate. split.
    + now rewrite length_map, length_seq.
    + intros i Hi.
      assert (Hin : (3 * i < length input)%nat).
      { pose proof (Nat.div_mod_eq (length input) 3). lia. }
      destruct (lookup_lt_is_Some_2 input (3 * i)%nat Hin) as [x Hx].
      assert (Hx16 : is_int16 x) by (eapply Forall_lookup_1; eassumption).
      rewrite Hx.
      rewrite list_lookup_fmap, lookup_seq_lt by exact Hi. simpl.
      replace (i * 3)%nat with (3 * i)%nat by lia.
      rewrite Hx. cbn [store_int16]. f_equal. apply to_int16_id. exact Hx16.
Qed.

Lemma resample_laws_witness :
  Forall is_int16 [3; -5; 7; 9] /\
  resample8kTo16k [3; -5; 7; 9] !! 2%nat = Some (-5) /\
  resample8kTo16k [3; -5; 7; 9] !! 3%nat = Some (-5) /\
  length (resample8kTo16k [3; -5; 7; 9]) = 8%nat /\
  length (resample24kTo8k [3; -5; 7; 9]) = 1%nat /\
  resample24kTo8k [3; -5; 7; 9] !! 0%nat = Some 3.
Proof.
  assert (Hpcm : Forall is_int16 [3; -5; 7; 9])
    by (repeat constructor; unfold is_int16; lia).
  destruct (resample_laws [3; -5; 7; 9] Hpcm) as (Hl8 & Hup & Hl24 & Hdown).
  destruct (Hup 1%nat (-5) eq_refl) as [H2 H3].
  split; [exact Hpcm |]. split; [exact H2 |]. split; [exact H3 |].
  split; [exact Hl8 |]. split; [exact Hl24 |].
  apply (Hdown 0%nat). simpl. lia.
Defined.

(** *** The sign of a round trip

    The encoder complements the byte it stores and the table is indexed
    by the stored byte, so a non-negative sample is stored with bit 7
    set and decoded to a value that is not positive. *)

Lemma find_exponent_range sample : 0 <= find_exponent 8 0 sample <= 7.
Proof.
  cbn [find_exponent].
  repeat match goal with
         | |- context [if ?c then _ else _] => destruct c
         end; lia.
Qed.

Lemma mantissa_range a : 0 <= JS.and a 0x0F <= 15.
Proof.
  unfold JS.and. change (to_int32 0x0F) with (Z.ones 4).
  rewrite Z.land_ones by lia.
  pose proof (Z.mod_pos_bound (to_int32 a) (2 ^ 4) ltac:(lia)). lia.
Qed.

Lemma packed_bytes_high :
  forallb (fun e =>
    forallb (fun m =>
      128 <=? to_uint8 (JS.not (JS.or (JS.or 0 (JS.shl e 4)) m)))
      (map Z.of_nat (seq 0 16)))
    (map Z.of_nat (seq 0 8)) = true.
Proof. vm_compute. reflexivity. Qed.

Lemma encode_nonneg_high x :
  0 <= x -> 128 <= encode_sample x < 256.
Proof.
  intros Hx. unfold encode_sample, encode_fields.
  replace (x <? -32768) with false by (symmetry; apply Z.ltb_ge; lia).
  set (c := if x >? 32767 then 32767 else x).
  assert (Hc : 0 <= c) by (unfold c; destruct (x >? 32767); lia).
  replace (c <? 0) with false by (symmetry; apply Z.ltb_ge; lia).
  set (e := find_exponent 8 0 (c + 132)).
  set (m := JS.and (JS.shr (c + 132) (e + 3)) 15).
  assert (He : 0 <= e <= 7) by apply find_exponent_range.
  assert (Hm : 0 <= m <= 15) by apply mantissa_range.
  split; [| unfold to_uint8; apply Z.mod_pos_bound; lia].
  pose proof packed_bytes_high as Hall.
  rewrite forallb_forall in Hall.
  assert (Hin : In e (map Z.of_nat (seq 0 8))).
  { rewrite <- (Z2Nat.id e) by lia. apply in_map, in_seq. lia. }
  specialize (Hall e Hin). rewrite forallb_forall in Hall.
  assert (Hin' : In m (map Z.of_nat (seq 0 16))).
  { rewrite <- (Z2Nat.id m) by lia. apply in_map, in_seq. lia. }
  specialize (Hall m Hin'). apply Z.leb_le in Hall. exact Hall.
Qed.

Lemma table_high_nonpos :
  forallb (fun b => (b <? 128) || (companding_expand b <=? 0))
    (map Z.of_nat (seq 0 256)) = true.
Proof. vm_compute. reflexivity. Qed.

(** For every non-negative sample the round trip yields one value, and
    that value is not positive: the error is at least the sample, which
    is more than the largest quantization step, [quant_step 7], for
    every sample above 1024. *)
Lemma roundtrip_flips_sign x :
  0 <= x <= 32767 ->
  exists v, decodeMulaw (encodeMulaw [x]) = [v] /\ v <= 0 /\ x <= Z.abs (v - x).
Proof.
  intros Hx.
  destruct (encode_nonneg_high x ltac:(lia)) as [Hlo Hhi].
  assert (Hb : is_byte (encode_sample x)) by (unfold is_byte; lia).
  exists (companding_expand (encode_sample x)).
  assert (Hv : companding_expand (encode_sample x) <= 0).
  { pose proof (byte_cases _ table_high_nonpos _ Hb) as H.
    apply orb_prop in H as [H | H]; [apply Z.ltb_lt in H; lia | now apply Z.leb_le in H]. }
  split; [| split; [exact Hv | lia]].
  change (encodeMulaw [x]) with [encode_sample x].
  rewrite decodeMulaw_bytes by (constructor; [exact Hb | constructor]).
  reflexivity.
Qed.


(** *** The encoder's exponent and mantissa

    The biased sample is at least 0x84, so the search never stops below
    5, and a sample whose biased value is below 1024 gets the mantissa
    0: the encoder tells apart three levels below 1024. *)

Lemma find_exponent_unfold sample :
  find_exponent 8 0 sample =
  if sample <? 8 then 0 else if sample <? 16 then 1 else
  if sample <? 32 then 2 else if sample <? 64 then 3 else
  if sample <? 128 then 4 else if sample <? 256 then 5 else
  if sample <? 512 then 6 else 7.
Proof.
  cbn [find_exponent].
  repeat match goal with
         | |- context [JS.shl 1 ?k] =>
             let v := eval vm_compute in (JS.shl 1 k) in
             change (JS.shl 1 k) with v
         end.
  destruct (sample <? 8), (sample <? 16), (sample <? 32), (sample <? 64),
    (sample <? 128), (sample <? 256), (sample <? 512), (sample <? 1024);
    reflexivity.
Qed.

Lemma to_int32_small v : 0 <= v < 2147483648 -> to_int32 v = v.
Proof.
  intros Hv. unfold to_int32. rewrite Z.mod_small by lia.
  destruct (2147483648 <=? v) eqn:E; [apply Z.leb_le in E; lia | reflexivity].
Qed.

Lemma encoder_levels x :
  is_int16 x ->
  5 <= encode_exponent x <= 7 /\
  (Z.abs x + 0x84 < 1024 -> snd (encode_fields x) = 0).
Proof.
  unfold is_int16, encode_exponent, encode_fields. intros Hx.
  replace (x <? -32768) with false by (symmetry; apply Z.ltb_ge; lia).
  replace (x >? 32767) with false by (symmetry; rewrite Z.gtb_ltb; apply Z.ltb_ge; lia).
  set (a := if x <? 0 then - x else x).
  assert (Ha : a = Z.abs x) by (unfold a; destruct (Z.ltb_spec x 0); lia).
  cbn [fst snd]. rewrite find_exponent_unfold.
  assert (Hs : 132 <= a + 132 <= 32900) by lia.
  split.
  - repeat match goal with
           | |- context [?u <? ?w] => destruct (Z.ltb_spec u w)
           end; lia.
  - intros Hsmall. rewrite <- Ha in Hsmall.
    unfold JS.and, JS.shr. rewrite (to_int32_small (a + 132)) by lia.
    assert (Hshift : forall k, a + 132 < 2 ^ k -> 0 <= k ->
                               Z.shiftr (a + 132) k = 0).
    { intros k Hk Hk0. rewrite Z.shiftr_div_pow2 by exact Hk0.
      apply Z.div_small. lia. }
    destruct (Z.ltb_spec (a + 132) 8); [lia |].
    destruct (Z.ltb_spec (a + 132) 16); [lia |].
    destruct (Z.ltb_spec (a + 132) 32); [lia |].
    destruct (Z.ltb_spec (a + 132) 64); [lia |].
    destruct (Z.ltb_spec (a + 132) 128); [lia |].
    destruct (Z.ltb_spec (a + 132) 256);
      [| destruct (Z.ltb_spec (a + 132) 512)].
    + change ((5 + 3) mod 32) with 8. rewrite Hshift by lia. reflexivity.
    + change ((6 + 3) mod 32) with 9. rewrite Hshift by lia. reflexivity.
    + change ((7 + 3) mod 32) with 10. rewrite Hshift by lia. reflexivity.
Qed.


(** C1. The round trip at the largest sample: [encodeMulaw] stores the
    byte 0x8F for 32767, with exponent 7, whose quantization step is
    1024; the table decodes 0x8F to -120, which is 32887 away. Silence
    (0, exponent 5, step 256) comes back as -876. Undoing the encoder's
    complement before the lookup gives 16764 for 32767, still more than
    a step away. The claim asks for a difference of at most one step. *)
Theorem roundtrip_exceeds_one_step :
  encodeMulaw [32767] = [0x8F] /\
  decodeMulaw (encodeMulaw [32767]) = [-120] /\
  quant_step (encode_exponent 32767) = 1024 /\
  quant_step (encode_exponent 32767) < Z.abs (-120 - 32767) /\
  decodeMulaw (encodeMulaw [0]) = [-876] /\
  quant_step (encode_exponent 0) = 256 /\
  table_get (to_uint8 (JS.not 0x8F)) = Some 16764.
Proof.
  split; [vm_compute; reflexivity |].
  split; [vm_compute; reflexivity |].
  assert (Hstep : quant_step (encode_exponent 32767) = 1024)
    by (vm_compute; reflexivity).
  split; [exact Hstep |].
  split; [rewrite Hstep; lia |].
  split; [vm_compute; reflexivity |].
  split; vm_compute; reflexivity.
Qed.

End CodecProofs.

(** ** The telephony bridge *)

Module TelephonyProofs.
Import Remote Telephony.

(** A media event met without a session is dropped. *)
Lemma media_without_session_dropped c payload :
  geminiSession c = None -> on_ws_message (MsgMedia payload) c = (c, []).
Proof. intros Hnone. simpl. now rewrite Hnone. Qed.

(** No handler other than the resolution of the handshake sets the
    session, and without a session nothing is submitted. *)
Lemma step_before_resolution c e :
  geminiSession c = None -> is_resolution e = false ->
  geminiSession (fst (step c e)) = None /\ realtime_inputs (snd (step c e)) = [].
Proof.
  intros Hnone Hres. destruct e as [| | msg | | | sess | | m |]; simpl in *;
    try discriminate; try (split; done).
  - split; [assumption |].
    unfold realtime_inputs. rewrite omap_app.
    destruct (truthy (inlineData msg)), (toolCall msg); reflexivity.
  - destruct (listening c); [| split; done].
    destruct m as [sid | payload | | ev]; simpl.
    + split; done.
    + rewrite Hnone. split; done.
    + unfold close_session. rewrite Hnone. split; done.
    + split; done.
  - destruct (listening c); [| split; done].
    simpl. unfold close_session. rewrite Hnone. split; done.
Qed.

Lemma run_before_resolution es :
  forall c, geminiSession c = None -> forallb (fun e => negb (is_resolution e)) es = true ->
  geminiSession (fst (run c es)) = None /\ realtime_inputs (snd (run c es)) = [].
Proof.
  induction es as [| e es IH]; intros c Hnone Hall; simpl.
  - split; [assumption | reflexivity].
  - simpl in Hall. apply andb_prop in Hall as [He Hes].
    apply negb_true_iff in He.
    destruct (step_before_resolution c e Hnone He) as [Hn1 Hq1].
    destruct (step c e) as [c1 out1]. simpl in Hn1, Hq1.
    destruct (IH c1 Hn1 Hes) as [Hn2 Hq2].
    destruct (run c1 es) as [c2 out2]. simpl in *.
    split; [assumption |].
    unfold realtime_inputs in *. now rewrite omap_app, Hq1, Hq2.
Qed.

(** The handlers of this bridge neither call a verdict callback nor
    answer a tool call. *)
Lemma step_no_verdict c e :
  deliveries (snd (step c e)) = [] /\ acks (snd (step c e)) = [].
Proof.
  destruct e as [| | msg | | | sess | | m |]; simpl; try (split; reflexivity).
  - unfold deliveries, acks. rewrite !omap_app.
    destruct (truthy (inlineData msg)), (toolCall msg); split; reflexivity.
  - destruct (listening c); [| split; reflexivity].
    destruct m as [sid | payload | | ev]; simpl; try (split; reflexivity).
    + destruct (geminiSession c); split; reflexivity.
    + unfold close_session. destruct (geminiSession c); split; reflexivity.
  - destruct (listening c); [| split; reflexivity].
    simpl. unfold close_session. destruct (geminiSession c); split; reflexivity.
Qed.

Lemma run_no_verdict es :
  forall c, deliveries (snd (run c es)) = [] /\ acks (snd (run c es)) = [].
Proof.
  induction es as [| e es IH]; intros c; simpl.
  - split; reflexivity.
  - pose proof (step_no_verdict c e) as [Hd1 Ha1].
    destruct (step c e) as [c1 out1]. simpl in Hd1, Ha1.
    pose proof (IH c1) as [Hd2 Ha2].
    destruct (run c1 es) as [c2 out2]. simpl in *.
    unfold deliveries, acks in *. rewrite !omap_app.
    now rewrite Hd1, Hd2, Ha1, Ha2.
Qed.

End TelephonyProofs.

(** ** The interactive bridge *)

Module LiveProofs.
Import Remote Live.
Local Open Scope string_scope.
Local Open Scope list_scope.

(** *** Calls that a projection does not see *)

Lemma omap_none_Forall {X : Type} (f : Call -> option X) (cs : list Call) :
  Forall (fun c => f c = None) cs -> omap f cs = [].
Proof.
  induction 1 as [| c cs Hc _ IH]; simpl; [reflexivity |].
  rewrite Hc. exact IH.
Qed.

Lemma cleanup_releases s : Forall (fun c => is_release c = true) (snd (cleanup s)).
Proof.
  unfold cleanup.
  destruct s as [ss ctx src prc str act p r]; simpl.
  destruct str as [tracks |], prc, src, ctx; simpl;
    rewrite ?Forall_app; repeat split;
    try (apply Forall_nil_2);
    try (apply Forall_forall; intros c Hc; apply list_elem_of_fmap in Hc as [t [-> _]]; reflexivity);
    repeat constructor.
Qed.

Lemma cleanup_quiet {X : Type} (f : Call -> option X) s :
  (forall c, is_release c = true -> f c = None) -> omap f (snd (cleanup s)) = [].
Proof.
  intros Hf. apply omap_none_Forall.
  eapply Forall_impl; [apply cleanup_releases | exact Hf].
Qed.

Lemma cleanup_closure s :
  sessionPromise (fst (cleanup s)) = sessionPromise s /\
  session (fst (cleanup s)) = session s /\
  isActive (fst (cleanup s)) = false.
Proof.
  unfold cleanup. destruct s as [ss ctx src prc str act p r]; simpl.
  destruct str, ctx; simpl; repeat split.
Qed.

Lemma emit_then cs (h : Handler) s :
  (emit cs >>> h) s = (fst (h s), cs ++ snd (h s)).
Proof. unfold and_then, emit. destruct (h s). reflexivity. Qed.

(** *** Callbacks registered on the promise *)

Lemma promise_thens_resolved ts :
  forall s sess, sessionPromise s = Resolved sess ->
  promise_thens ts s = (s, map run_then ts).
Proof.
  induction ts as [| t ts IH]; intros s sess Hp; simpl; [reflexivity |].
  unfold and_then, promise_then at 1. rewrite Hp.
  rewrite (IH s sess Hp). reflexivity.
Qed.

Lemma promise_thens_pending ts :
  forall s q, sessionPromise s = Pending q ->
  promise_thens ts s = (set_closure (Pending (q ++ ts)) (actualSampleRate s) s, []).
Proof.
  induction ts as [| t ts IH]; intros s q Hp; simpl.
  - unfold emit. destruct s; simpl in *; subst. now rewrite app_nil_r.
  - unfold and_then, promise_then at 1. rewrite Hp.
    rewrite (IH (set_closure (Pending (q ++ [t])) (actualSampleRate s) s)
               (q ++ [t]) eq_refl).
    simpl. now rewrite <- app_assoc.
Qed.

Lemma promise_thens_dead ts :
  forall s, sessionPromise s = Rejected \/ sessionPromise s = NotCreated ->
  promise_thens ts s = (s, []).
Proof.
  induction ts as [| t ts IH]; intros s Hp; simpl; [reflexivity |].
  unfold and_then, promise_then at 1.
  destruct Hp as [Hp | Hp]; rewrite Hp; rewrite IH by (rewrite Hp; auto); reflexivity.
Qed.

(** Registering callbacks changes the promise only, and what runs is
    a send to the remote session. *)
Lemma promise_thens_frame ts s :
  exists p, fst (promise_thens ts s) = set_closure p (actualSampleRate s) s /\
            Forall (fun c => is_remote_send c = true) (snd (promise_thens ts s)).
Proof.
  destruct (sessionPromise s) as [| q | sess |] eqn:Hp.
  - rewrite promise_thens_dead by auto. exists NotCreated. split.
    + destruct s; simpl in *; now subst.
    + constructor.
  - rewrite (promise_thens_pending ts s q Hp). eexists. split; [reflexivity | constructor].
  - rewrite (promise_thens_resolved ts s sess Hp). exists (Resolved sess). split.
    + destruct s; simpl in *; now subst.
    + apply Forall_forall. intros c Hc.
      apply list_elem_of_fmap in Hc as [t [-> _]]. destruct t; reflexivity.
  - rewrite promise_thens_dead by auto. exists Rejected. split.
    + destruct s; simpl in *; now subst.
    + constructor.
Qed.

(** *** The tool-call loop *)

Lemma handle_calls_filter fcs :
  handle_calls fcs =
  (map (fun c => OnToolCall (call_args c))
     (List.filter (fun c => String.eqb (call_name c) "report_outcome") fcs),
   map (fun c => ThenSendAck (call_id c) (call_name c))
     (List.filter (fun c => String.eqb (call_name c) "report_outcome") fcs)).
Proof.
  induction fcs as [| call rest IH]; simpl; [reflexivity |].
  rewrite IH. destruct (String.eqb (call_name call) "report_outcome"); reflexivity.
Qed.

Lemma onmessage_unfold msg s :
  onmessage msg s =
  (fst (promise_thens (verdict_thens msg) s),
   (audio_calls msg ++ verdict_calls msg) ++ snd (promise_thens (verdict_thens msg) s)).
Proof.
  unfold onmessage, verdict_thens, verdict_calls, audio_calls, reports.
  destruct (toolCall msg) as [fcs |].
  - rewrite handle_calls_filter. apply emit_then.
  - apply emit_then.
Qed.

(** *** What one message delivers, logs and acknowledges *)

Lemma deliveries_verdict_calls msg :
  deliveries (verdict_calls msg) = map call_args (reports msg).
Proof.
  unfold verdict_calls. induction (reports msg) as [| c l IH]; simpl; [reflexivity |].
  unfold deliveries in *. simpl. now rewrite IH.
Qed.

Lemma acks_verdict_thens msg :
  acks (map run_then (verdict_thens msg)) = map call_id (reports msg).
Proof.
  unfold verdict_thens. induction (reports msg) as [| c l IH]; simpl; [reflexivity |].
  unfold acks in *. simpl. now rewrite IH.
Qed.

Lemma onmessage_deliveries msg s :
  deliveries (snd (onmessage msg s)) = map call_args (reports msg).
Proof.
  rewrite onmessage_unfold. simpl.
  destruct (promise_thens_frame (verdict_thens msg) s) as [p [_ Hsend]].
  unfold deliveries. rewrite !omap_app.
  fold (deliveries (verdict_calls msg)). rewrite deliveries_verdict_calls.
  rewrite (omap_none_Forall _ (snd (promise_thens (verdict_thens msg) s))).
  - unfold audio_calls. destruct (truthy (inlineData msg)); simpl; now rewrite app_nil_r.
  - eapply Forall_impl; [exact Hsend |]. intros c Hc. destruct c; try reflexivity; discriminate.
Qed.

Lemma onmessage_logged msg s : logged (snd (onmessage msg s)) = [].
Proof.
  rewrite onmessage_unfold. simpl.
  destruct (promise_thens_frame (verdict_thens msg) s) as [p [_ Hsend]].
  unfold logged. rewrite !omap_app.
  rewrite (omap_none_Forall _ (snd (promise_thens (verdict_thens msg) s))).
  - rewrite (omap_none_Forall _ (verdict_calls msg)).
    + unfold audio_calls. destruct (truthy (inlineData msg)); reflexivity.
    + unfold verdict_calls. apply Forall_forall. intros c Hc.
      apply list_elem_of_fmap in Hc as [fc [-> _]]. reflexivity.
  - eapply Forall_impl; [exact Hsend |]. intros c Hc. destruct c; try reflexivity; discriminate.
Qed.

Lemma onmessage_frame msg s :
  isActive (fst (onmessage msg s)) = isActive s /\
  session (fst (onmessage msg s)) = session s.
Proof.
  rewrite onmessage_unfold. simpl.
  destruct (promise_thens_frame (verdict_thens msg) s) as [p [-> _]].
  split; reflexivity.
Qed.

Lemma onmessage_acks_resolved msg s sess :
  sessionPromise s = Resolved sess ->
  fst (onmessage msg s) = s /\
  acks (snd (onmessage msg s)) = map call_id (reports msg).
Proof.
  intros Hp. rewrite onmessage_unfold.
  rewrite (promise_thens_resolved _ s sess Hp). simpl. split; [reflexivity |].
  unfold acks. rewrite !omap_app. fold (acks (map run_then (verdict_thens msg))).
  rewrite acks_verdict_thens.
  rewrite (omap_none_Forall _ (verdict_calls msg)).
  - unfold audio_calls. destruct (truthy (inlineData msg)); reflexivity.
  - unfold verdict_calls. apply Forall_forall. intros c Hc.
    apply list_elem_of_fmap in Hc as [fc [-> _]]. reflexivity.
Qed.

Lemma onmessage_acks_pending msg s q sess :
  sessionPromise s = Pending q ->
  acks (snd (onmessage msg s)) = [] /\
  acks (snd (promise_resolved sess (fst (onmessage msg s)))) =
    acks (map run_then q) ++ map call_id (reports msg).
Proof.
  intros Hp. rewrite onmessage_unfold.
  rewrite (promise_thens_pending _ s q Hp). simpl. split.
  - rewrite app_nil_r. unfold acks. rewrite omap_app.
    rewrite (omap_none_Forall _ (verdict_calls msg)).
    + unfold audio_calls. destruct (truthy (inlineData msg)); reflexivity.
    + unfold verdict_calls. apply Forall_forall. intros c Hc.
      apply list_elem_of_fmap in Hc as [fc [-> _]]. reflexivity.
  - unfold promise_resolved. simpl. rewrite map_app.
    unfold acks. rewrite omap_app. fold (acks (map run_then (verdict_thens msg))).
    now rewrite acks_verdict_thens.
Qed.

(** Messages neither end nor replace the session. *)
Lemma messages_keep_session msgs :
  forall s,
    isActive (fst (run s (map EMessage msgs))) = isActive s /\
    session (fst (run s (map EMessage msgs))) = session s.
Proof.
  induction msgs as [| msg msgs IH]; intros s; simpl; [split; reflexivity |].
  destruct (onmessage_frame msg s) as [Ha Hs].
  destruct (onmessage msg s) as [s1 out1]. simpl in Ha, Hs.
  destruct (IH s1) as [Ha1 Hs1].
  destruct (run s1 (map EMessage msgs)) as [s2 out2]. simpl in *.
  split; congruence.
Qed.


(** *** Deliveries along a run *)

Lemma cleanup_deliveries s : deliveries (snd (cleanup s)) = [].
Proof. apply cleanup_quiet. intros c Hc. destruct c; try reflexivity; discriminate. Qed.

Lemma deliveries_app a b : deliveries (a ++ b) = deliveries a ++ deliveries b.
Proof. apply omap_app. Qed.

Lemma step_deliveries s e : deliveries (snd (step s e)) = delivered_by e.
Proof.
  destruct e as [env | sess | message | | inputData | msg | | |]; simpl.
  - unfold startSession. destruct (isActive s); [reflexivity |].
    destruct (media env).
    + destruct (suspended env); reflexivity.
    + rewrite emit_then. simpl. apply cleanup_deliveries.
  - unfold promise_resolved. destruct (sessionPromise s) as [| q | |]; try reflexivity.
    simpl. apply omap_none_Forall, Forall_forall. intros c Hc.
    apply list_elem_of_fmap in Hc as [t [-> _]]. destruct t; reflexivity.
  - unfold promise_rejected. destruct (sessionPromise s); try reflexivity.
    rewrite emit_then. simpl. apply cleanup_deliveries.
  - unfold onopen. simpl. destruct (inputAudioContext s), (stream s); reflexivity.
  - destruct (processor s); [| reflexivity].
    unfold onaudioprocess. destruct (isActive s); [| reflexivity]. simpl.
    unfold promise_then. destruct (sessionPromise s); reflexivity.
  - apply onmessage_deliveries.
  - unfold onclose. rewrite emit_then. simpl. apply cleanup_deliveries.
  - unfold onerror. rewrite emit_then. simpl. apply cleanup_deliveries.
  - unfold stopSession. rewrite emit_then. simpl.
    rewrite deliveries_app, cleanup_deliveries, app_nil_r.
    destruct (session s) as [sess |]; [| reflexivity].
    destruct (has_close sess); [| reflexivity].
    destruct (close_throws sess); reflexivity.
Qed.

Lemma run_deliveries es :
  forall s, deliveries (snd (run s es)) = flat_map delivered_by es.
Proof.
  induction es as [| e es IH]; intros s; simpl; [reflexivity |].
  pose proof (step_deliveries s e) as H1.
  destruct (step s e) as [s1 out1]. simpl in H1.
  pose proof (IH s1) as H2.
  destruct (run s1 es) as [s2 out2]. simpl in *.
  now rewrite deliveries_app, H1, H2.
Qed.

(** *** Before the promise resolves *)

Lemma cleanup_inputs s : realtime_inputs (snd (cleanup s)) = [].
Proof. apply cleanup_quiet. intros c Hc. destruct c; try reflexivity; discriminate. Qed.

Lemma cleanup_unresolved s : unresolved s -> unresolved (fst (cleanup s)).
Proof.
  unfold unresolved. destruct (cleanup_closure s) as [-> _]. trivial.
Qed.

Lemma promise_thens_unresolved ts s :
  unresolved s ->
  unresolved (fst (promise_thens ts s)) /\ snd (promise_thens ts s) = [].
Proof.
  unfold unresolved. intros Hu.
  destruct (sessionPromise s) as [| q | sess |] eqn:Hp; try contradiction.
  - rewrite promise_thens_dead by auto. simpl. now rewrite Hp.
  - rewrite (promise_thens_pending ts s q Hp). simpl. auto.
  - rewrite promise_thens_dead by auto. simpl. now rewrite Hp.
Qed.

Lemma step_unresolved s e :
  unresolved s -> Live.is_resolution e = false ->
  unresolved (fst (step s e)) /\ realtime_inputs (snd (step s e)) = [].
Proof.
  intros Hu Hres.
  destruct e as [env | sess | message | | inputData | msg | | |]; simpl in *;
    try discriminate.
  - unfold startSession. destruct (isActive s); [split; done |].
    destruct (media env).
    + split; [exact I | destruct (suspended env); reflexivity].
    + rewrite emit_then. simpl. split; [now apply cleanup_unresolved | apply cleanup_inputs].
  - unfold promise_rejected. destruct (sessionPromise s) eqn:Hp; try (split; done).
    rewrite emit_then. simpl. split; [| apply cleanup_inputs].
    apply cleanup_unresolved. exact I.
  - unfold onopen. simpl. destruct (inputAudioContext s), (stream s); split; done.
  - destruct (processor s); [| split; done].
    unfold onaudioprocess. destruct (isActive s); [| split; done]. simpl.
    pose proof (promise_thens_unresolved [ThenSendAudio (createPcmBlob inputData (actualSampleRate s))] s Hu) as [H1 H2].
    simpl in H1, H2. unfold and_then, emit in H1, H2.
    destruct (promise_then _ s) as [s1 out1]. simpl in *.
    rewrite app_nil_r in H2. subst out1. split; done.
  - pose proof (promise_thens_unresolved (verdict_thens msg) s Hu) as [H1 H2].
    rewrite onmessage_unfold. simpl. rewrite H2, app_nil_r. split; [exact H1 |].
    unfold realtime_inputs. rewrite omap_app.
    rewrite (omap_none_Forall _ (verdict_calls msg)).
    + unfold audio_calls. destruct (truthy (inlineData msg)); reflexivity.
    + unfold verdict_calls. apply Forall_forall. intros c Hc.
      apply list_elem_of_fmap in Hc as [fc [-> _]]. reflexivity.
  - unfold onclose. rewrite emit_then. simpl.
    split; [now apply cleanup_unresolved | apply cleanup_inputs].
  - unfold onerror. rewrite emit_then. simpl.
    split; [now apply cleanup_unresolved | apply cleanup_inputs].
  - unfold stopSession. rewrite emit_then. simpl.
    split; [now apply cleanup_unresolved |].
    unfold realtime_inputs. rewrite omap_app.
    fold (realtime_inputs (snd (cleanup s))). rewrite cleanup_inputs, app_nil_r.
    destruct (session s) as [sess |]; [| reflexivity].
    destruct (has_close sess); [| reflexivity].
    destruct (close_throws sess); reflexivity.
Qed.

Lemma run_unresolved es :
  forall s, unresolved s ->
  forallb (fun e => negb (Live.is_resolution e)) es = true ->
  unresolved (fst (run s es)) /\ realtime_inputs (snd (run s es)) = [].
Proof.
  induction es as [| e es IH]; intros s Hu Hall; simpl; [split; done |].
  simpl in Hall. apply andb_prop in Hall as [He Hes]. apply negb_true_iff in He.
  destruct (step_unresolved s e Hu He) as [Hu1 Hq1].
  destruct (step s e) as [s1 out1]. simpl in Hu1, Hq1.
  destruct (IH s1 Hu1 Hes) as [Hu2 Hq2].
  destruct (run s1 es) as [s2 out2]. simpl in *.
  split; [assumption |].
  unfold realtime_inputs in *. now rewrite omap_app, Hq1, Hq2.
Qed.

(** While the service is not active the audio callback returns at its
    guard, whatever the promise. *)
Lemma inactive_chunks_dropped chunks :
  forall s, isActive s = false -> run s (map EAudio chunks) = (s, []).
Proof.
  induction chunks as [| d chunks IH]; intros s Hin; simpl; [reflexivity |].
  assert (Hstep : (match processor s with
                   | Some _ => onaudioprocess d s
                   | None => (s, [])
                   end) = (s, [])).
  { unfold onaudioprocess. rewrite Hin. destruct (processor s); reflexivity. }
  rewrite Hstep, (IH s Hin). reflexivity.
Qed.

(** Once [onopen] has run, a chunk captured while the promise is still
    pending is not lost: its submission waits on the promise and is
    made, in order, when the promise resolves. *)
Lemma chunk_after_open_waits s q inputData sess :
  isActive s = true -> sessionPromise s = Pending q ->
  snd (onaudioprocess inputData s) = [] /\
  realtime_inputs (snd (promise_resolved sess (fst (onaudioprocess inputData s)))) =
    realtime_inputs (map run_then q) ++ [createPcmBlob inputData (actualSampleRate s)].
Proof.
  intros Hact Hp. unfold onaudioprocess, promise_then. rewrite Hact, Hp. simpl.
  split; [reflexivity |].
  unfold promise_resolved. simpl. rewrite map_app.
  unfold realtime_inputs. now rewrite omap_app.
Qed.

(** *** Before [onopen] *)

Lemma inputs_verdict_thens msg :
  realtime_inputs (map run_then (verdict_thens msg)) = [].
Proof.
  unfold verdict_thens. apply omap_none_Forall, Forall_forall. intros c Hc.
  apply list_elem_of_fmap in Hc as [t [-> Ht]].
  apply list_elem_of_fmap in Ht as [fc [-> _]]. reflexivity.
Qed.

Lemma cleanup_before_open s :
  match sessionPromise s with
  | Pending q => realtime_inputs (map run_then q) = []
  | _ => True
  end ->
  before_open (fst (cleanup s)).
Proof.
  intros Hq. unfold before_open.
  destruct (cleanup_closure s) as (-> & _ & ->). split; [reflexivity | exact Hq].
Qed.

Lemma step_before_open s e :
  before_open s -> is_open e = false ->
  before_open (fst (step s e)) /\ realtime_inputs (snd (step s e)) = [].
Proof.
  intros [Hin Hq] Hop.
  destruct e as [env | sess | message | | inputData | msg | | |]; simpl in *;
    try discriminate.
  - unfold startSession. rewrite Hin. destruct (media env).
    + split; [split; [exact Hin | reflexivity] | destruct (suspended env); reflexivity].
    + rewrite emit_then. simpl. split; [now apply cleanup_before_open | apply cleanup_inputs].
  - unfold promise_resolved. destruct (sessionPromise s) as [| q | |] eqn:Hp; simpl;
      try (split; [split; [exact Hin | rewrite Hp; exact I] | reflexivity]).
    split; [split; [exact Hin | exact I] | exact Hq].
  - unfold promise_rejected. destruct (sessionPromise s) as [| q | |] eqn:Hp; simpl;
      try (split; [split; [exact Hin | rewrite Hp; exact I] | reflexivity]).
    rewrite emit_then. simpl. split; [| apply cleanup_inputs].
    apply cleanup_before_open. exact I.
  - destruct (processor s); [| split; [split; assumption | reflexivity]].
    unfold onaudioprocess. rewrite Hin. simpl. split; [split; assumption | reflexivity].
  - rewrite onmessage_unfold. simpl.
    assert (Hsync : realtime_inputs (audio_calls msg ++ verdict_calls msg) = []).
    { unfold realtime_inputs. rewrite omap_app.
      rewrite (omap_none_Forall _ (verdict_calls msg)).
      - unfold audio_calls. destruct (truthy (inlineData msg)); reflexivity.
      - unfold verdict_calls. apply Forall_forall. intros c Hc.
        apply list_elem_of_fmap in Hc as [fc [-> _]]. reflexivity. }
    destruct (sessionPromise s) as [| q | sess |] eqn:Hp.
    + rewrite promise_thens_dead by auto. simpl. rewrite app_nil_r.
      split; [split; [exact Hin | now rewrite Hp] | exact Hsync].
    + rewrite (promise_thens_pending _ s q Hp). simpl. rewrite app_nil_r.
      split; [| exact Hsync]. split; [exact Hin |].
      cbn [sessionPromise set_closure]. rewrite map_app.
      unfold realtime_inputs in *. rewrite omap_app, Hq.
      apply inputs_verdict_thens.
    + rewrite (promise_thens_resolved _ s sess Hp). simpl.
      split; [split; [exact Hin | now rewrite Hp] |].
      unfold realtime_inputs in *. rewrite omap_app, Hsync.
      apply inputs_verdict_thens.
    + rewrite promise_thens_dead by auto. simpl. rewrite app_nil_r.
      split; [split; [exact Hin | now rewrite Hp] | exact Hsync].
  - unfold onclose. rewrite emit_then. simpl.
    split; [now apply cleanup_before_open | apply cleanup_inputs].
  - unfold onerror. rewrite emit_then. simpl.
    split; [now apply cleanup_before_open | apply cleanup_inputs].
  - unfold stopSession. rewrite emit_then. simpl.
    split; [now apply cleanup_before_open |].
    unfold realtime_inputs. rewrite omap_app.
    fold (realtime_inputs (snd (cleanup s))). rewrite cleanup_inputs, app_nil_r.
    destruct (session s) as [sess |]; [| reflexivity].
    destruct (has_close sess); [| reflexivity].
    destruct (close_throws sess); reflexivity.
Qed.

Lemma run_before_open es :
  forall s, before_open s ->
  forallb (fun e => negb (is_open e)) es = true ->
  before_open (fst (run s es)) /\ realtime_inputs (snd (run s es)) = [].
Proof.
  induction es as [| e es IH]; intros s Hb Hall; simpl; [split; done |].
  simpl in Hall. apply andb_prop in Hall as [He Hes]. apply negb_true_iff in He.
  destruct (step_before_open s e Hb He) as [Hb1 Hq1].
  destruct (step s e) as [s1 out1]. simpl in Hb1, Hq1.
  destruct (IH s1 Hb1 Hes) as [Hb2 Hq2].
  destruct (run s1 es) as [s2 out2]. simpl in *.
  split; [assumption |].
  unfold realtime_inputs in *. now rewrite omap_app, Hq1, Hq2.
Qed.

(** *** Starting and stopping *)

Lemma starts_while_active envs :
  forall s, isActive s = true -> run s (map EStart envs) = (s, []).
Proof.
  induction envs as [| env envs IH]; intros s Hact; simpl; [reflexivity |].
  unfold startSession. rewrite Hact. rewrite (IH s Hact). reflexivity.
Qed.

(** After a stop, the stream and the context are gone and the state no
    longer changes; the session and the two nodes are still there. *)
Lemma stop_is_stable s :
  fst (stopSession (fst (stopSession s))) = fst (stopSession s) /\
  stream (fst (stopSession s)) = None /\
  inputAudioContext (fst (stopSession s)) = None /\
  session (fst (stopSession s)) = session s /\
  processor (fst (stopSession s)) = processor s /\
  inputSource (fst (stopSession s)) = inputSource s.
Proof.
  unfold stopSession. rewrite !emit_then. simpl.
  unfold cleanup. destruct s as [ss ctx src prc str act p r]; simpl.
  destruct str, ctx; simpl; repeat split.
Qed.

(** What a second stop does on a session that has a [close] method and
    whose nodes were created: it closes the session and disconnects the
    nodes again, and stops no track and closes no context. *)
Lemma second_stop_calls s sess :
  session s = Some sess -> has_close sess = true ->
  is_Some (processor s) -> is_Some (inputSource s) ->
  List.filter (fun c => negb (match c with ConsoleWarn _ => true | _ => false end))
    (snd (stopSession (fst (stopSession s)))) =
  [SessionClose (session_id sess); SourceDisconnect; ProcessorDisconnect].
Proof.
  intros Hs Hc [prc Hprc] [src Hsrc].
  unfold stopSession. rewrite !emit_then. simpl.
  destruct (cleanup_closure s) as (_ & -> & _). rewrite Hs, Hc.
  unfold cleanup. destruct s as [ss ctx src' prc' str act p r]; simpl in *. subst.
  destruct str, ctx, (close_throws sess); reflexivity.
Qed.

End LiveProofs.

(** ** The verdict protocol *)

Module VerdictProtocol.
Import Remote Scenario.
Local Open Scope string_scope.
Local Open Scope list_scope.

(** C2, as the code has it. The interactive bridge hands every
    invocation of the verdict function to [onToolCall] with that
    invocation's own arguments: one run of the message callback
    delivers the verdicts of its message, each once and in the order of
    the message, whether the message carries audio or not. Along a run
    whose messages carry no audio (their callbacks reach no [await])
    the verdicts delivered are those of all the messages, in arrival
    order, so two invocations, in two messages or in one, are two
    deliveries. The second invocation is handled like the first and
    leaves the active flag as it was. The telephony bridge delivers
    none. *)
Theorem every_invocation_delivered
    (s : Live.Service) (es : list Live.Event)
    (c : Telephony.Conn) (tes : list Telephony.Event)
    (id1 id2 : string) (a1 a2 : Args)
    (Hes : forallb Live.no_audio_event es = true) :
  (forall msg, deliveries (snd (Live.onmessage msg s)) = map call_args (Live.reports msg)) /\
  deliveries (snd (Live.run s es)) = flat_map Live.delivered_by es /\
  deliveries (snd (Live.run s [Live.EMessage (verdict_invocation id1 a1);
                               Live.EMessage (verdict_invocation id2 a2)])) = [a1; a2] /\
  deliveries (snd (Live.onmessage
                     {| inlineData := None;
                        toolCall := Some [{| call_id := id1; call_name := "report_outcome";
                                             call_args := a1 |};
                                          {| call_id := id2; call_name := "report_outcome";
                                             call_args := a2 |}] |} s)) = [a1; a2] /\
  Live.isActive (fst (Live.run s [Live.EMessage (verdict_invocation id1 a1);
                                  Live.EMessage (verdict_invocation id2 a2)]))
    = Live.isActive s /\
  deliveries (snd (Telephony.run c tes)) = [].
Proof.
  clear Hes.
  split; [intros msg; apply LiveProofs.onmessage_deliveries |].
  split; [apply LiveProofs.run_deliveries |].
  split; [rewrite LiveProofs.run_deliveries; reflexivity |].
  split; [rewrite LiveProofs.onmessage_deliveries; reflexivity |].
  split; [| apply TelephonyProofs.run_no_verdict].
  apply (LiveProofs.messages_keep_session
           [verdict_invocation id1 a1; verdict_invocation id2 a2] s).
Qed.

(** An established session that receives a verdict, is asked to start
    again and receives a second verdict, none of the messages carrying
    audio. *)
Lemma every_invocation_delivered_witness :
  (forall msg, deliveries (snd (Live.onmessage msg active_service))
               = map call_args (Live.reports msg)) /\
  deliveries (snd (Live.run active_service
                     [Live.EMessage (verdict_invocation "call-1" scam_args);
                      Live.EStart env0;
                      Live.EMessage (verdict_invocation "call-2" safe_args)]))
    = flat_map Live.delivered_by
        [Live.EMessage (verdict_invocation "call-1" scam_args);
         Live.EStart env0;
         Live.EMessage (verdict_invocation "call-2" safe_args)] /\
  deliveries (snd (Live.run active_service
                     [Live.EMessage (verdict_invocation "call-1" scam_args);
                      Live.EMessage (verdict_invocation "call-2" safe_args)]))
    = [scam_args; safe_args] /\
  deliveries (snd (Live.onmessage
                     {| inlineData := None;
                        toolCall := Some [{| call_id := "call-1"; call_name := "report_outcome";
                                             call_args := scam_args |};
                                          {| call_id := "call-2"; call_name := "report_outcome";
                                             call_args := safe_args |}] |} active_service))
    = [scam_args; safe_args] /\
  Live.isActive (fst (Live.run active_service
                        [Live.EMessage (verdict_invocation "call-1" scam_args);
                         Live.EMessage (verdict_invocation "call-2" safe_args)]))
    = Live.isActive active_service /\
  deliveries (snd (Telephony.run Telephony.new_conn
                     [Telephony.Connection;
                      Telephony.GeminiMessage (verdict_invocation "call-1" scam_args)])) = [].
Proof.
  apply (every_invocation_delivered active_service
           [Live.EMessage (verdict_invocation "call-1" scam_args);
            Live.EStart env0;
            Live.EMessage (verdict_invocation "call-2" safe_args)]
           Telephony.new_conn
           [Telephony.Connection;
            Telephony.GeminiMessage (verdict_invocation "call-1" scam_args)]
           "call-1" "call-2" scam_args safe_args).
  reflexivity.
Defined.

(** A session that receives a scam verdict and then a safe one: the
    collaborator is called twice, the second time with the second
    invocation's arguments. *)
Lemma second_verdict_also_delivered :
  deliveries (snd (Live.run active_service
                     [Live.EMessage (verdict_invocation "call-1" scam_args);
                      Live.EMessage (verdict_invocation "call-2" safe_args)]))
    = [scam_args; safe_args] /\
  deliveries (snd (Live.run active_service
                     [Live.EMessage (verdict_invocation "call-1" scam_args);
                      Live.EMessage (verdict_invocation "call-2" safe_args)]))
    <> [scam_args].
Proof.
  assert (H : deliveries (snd (Live.run active_service
                     [Live.EMessage (verdict_invocation "call-1" scam_args);
                      Live.EMessage (verdict_invocation "call-2" safe_args)]))
              = [scam_args; safe_args]) by reflexivity.
  split; [exact H |]. rewrite H. discriminate.
Qed.

(** C3, as the code has it. The bridge casts the arguments of a verdict
    invocation and calls [onToolCall] with them: whatever the payload,
    well-formed or not, it is delivered once and unchanged, nothing is
    logged, and the active flag and the session are as before. *)
Theorem verdict_payload_not_validated (s : Live.Service) (id : string) (a : Args) :
  deliveries (snd (Live.onmessage (verdict_invocation id a) s)) = [a] /\
  logged (snd (Live.onmessage (verdict_invocation id a) s)) = [] /\
  Live.isActive (fst (Live.onmessage (verdict_invocation id a) s)) = Live.isActive s /\
  Live.session (fst (Live.onmessage (verdict_invocation id a) s)) = Live.session s.
Proof.
  split; [rewrite LiveProofs.onmessage_deliveries; reflexivity |].
  split; [apply LiveProofs.onmessage_logged |].
  apply LiveProofs.onmessage_frame.
Qed.

(** A payload without [verdict] fails the validation of the
    specification, and is delivered all the same, with no log entry. *)
Lemma verdict_missing_still_delivered :
  Live.valid_verdict no_verdict_args = false /\
  deliveries (snd (Live.run active_service
                     [Live.EMessage (verdict_invocation "call-1" no_verdict_args)]))
    = [no_verdict_args] /\
  logged (snd (Live.run active_service
                 [Live.EMessage (verdict_invocation "call-1" no_verdict_args)])) = [].
Proof. split; [reflexivity | split; reflexivity]. Qed.

(** C8, as the code has it. The interactive bridge answers every
    invocation of the verdict function with one tool response that
    carries the invocation's identifier: at once when the session
    promise has resolved, and otherwise when it resolves, after the
    callbacks that were already waiting. The telephony bridge answers
    none. *)
Theorem acknowledgment_per_invocation
    (s : Live.Service) (msg : LiveServerMessage) (c : Telephony.Conn) :
  (forall sess, Live.sessionPromise s = Live.Resolved sess ->
     acks (snd (Live.onmessage msg s)) = map call_id (Live.reports msg)) /\
  (forall q sess, Live.sessionPromise s = Live.Pending q ->
     acks (snd (Live.onmessage msg s)) = [] /\
     acks (snd (Live.promise_resolved sess (fst (Live.onmessage msg s)))) =
       acks (map Live.run_then q) ++ map call_id (Live.reports msg)) /\
  acks (snd (Telephony.onmessage msg c)) = [].
Proof.
  split; [intros sess Hp; apply (LiveProofs.onmessage_acks_resolved msg s sess Hp) |].
  split; [intros q sess Hp; apply (LiveProofs.onmessage_acks_pending msg s q sess Hp) |].
  apply (TelephonyProofs.step_no_verdict c (Telephony.GeminiMessage msg)).
Qed.

Lemma acknowledgment_per_invocation_witness :
  Live.sessionPromise active_service = Live.Resolved sess0 /\
  acks (snd (Live.onmessage (verdict_invocation "call-1" scam_args) active_service))
    = ["call-1"].
Proof.
  split; [reflexivity |].
  destruct (acknowledgment_per_invocation active_service
              (verdict_invocation "call-1" scam_args) Telephony.new_conn) as [H _].
  exact (H sess0 eq_refl).
Defined.

(** On the telephony bridge a well-formed verdict invocation is logged
    and nothing is sent back to the remote session. *)
Lemma telephony_sends_no_ack :
  Live.valid_verdict scam_args = true /\
  snd (Telephony.run Telephony.new_conn
         [Telephony.HandshakeResolved sess0;
          Telephony.GeminiMessage (verdict_invocation "call-1" scam_args)])
    = [ConsoleLog "Tool Call:"] /\
  acks (snd (Telephony.run Telephony.new_conn
               [Telephony.HandshakeResolved sess0;
                Telephony.GeminiMessage (verdict_invocation "call-1" scam_args)])) = [].
Proof. split; [reflexivity | split; reflexivity]. Qed.

End VerdictProtocol.

(** ** The session lifecycle *)

Module Lifecycle.
Import Remote Scenario.
Local Open Scope Z_scope.
Local Open Scope string_scope.
Local Open Scope list_scope.

(** C4, as the code has it. Audio that arrives before the handshake
    has resolved is submitted to no remote session before it resolves.
    On the telephony bridge media events met while [geminiSession] is
    unset leave the connection as it was and make no call, and no run
    that lacks the resolution of the handshake submits audio: the chunk
    is dropped. On the interactive bridge chunks captured while the
    service is not active are dropped at the guard of the audio
    callback, and no run that lacks [onopen], or that lacks the
    resolution of the session promise, submits audio. But a chunk
    captured once [onopen] has run, while the session promise is still
    pending, is not dropped: the callback makes no call and queues the
    submission on the promise, and the resolution of the promise
    submits the chunk, after what was queued before it. *)
Theorem no_audio_before_handshake
    (c : Telephony.Conn) (payloads : list (list Z)) (tes : list Telephony.Event)
    (s : Live.Service) (chunks : list (list Z)) (es es' : list Live.Event)
    (s' : Live.Service) (q : list Live.Then) (inputData : list Z) (sess : Session)
    (Hc : Telephony.geminiSession c = None)
    (Htes : forallb (fun e => negb (Telephony.is_resolution e)) tes = true)
    (Hs : Live.isActive s = false)
    (Hes : forallb (fun e => negb (Live.is_resolution e)) es = true)
    (Hes' : forallb (fun e => negb (Live.is_open e)) es' = true)
    (Hact : Live.isActive s' = true)
    (Hpend : Live.sessionPromise s' = Live.Pending q) :
  Telephony.run c (map (fun p => Telephony.WsMessage (Telephony.MsgMedia p)) payloads)
    = (c, []) /\
  realtime_inputs (snd (Telephony.run Telephony.new_conn tes)) = [] /\
  Live.run s (map Live.EAudio chunks) = (s, []) /\
  realtime_inputs (snd (Live.run Live.new_service es)) = [] /\
  realtime_inputs (snd (Live.run Live.new_service es')) = [] /\
  snd (Live.onaudioprocess inputData s') = [] /\
  realtime_inputs (snd (Live.promise_resolved sess (fst (Live.onaudioprocess inputData s'))))
    = realtime_inputs (map Live.run_then q)
      ++ [Live.createPcmBlob inputData (Live.actualSampleRate s')].
Proof.
  split.
  { clear -Hc. induction payloads as [| p ps IH]; [reflexivity |].
    cbn [map Telephony.run Telephony.step].
    rewrite (TelephonyProofs.media_without_session_dropped c p Hc).
    destruct (Telephony.listening c); rewrite IH; reflexivity. }
  split; [apply TelephonyProofs.run_before_resolution; [reflexivity | exact Htes] |].
  split; [apply LiveProofs.inactive_chunks_dropped; exact Hs |].
  split; [apply LiveProofs.run_unresolved; [exact I | exact Hes] |].
  split; [apply LiveProofs.run_before_open; [split; [reflexivity | exact I] | exact Hes'] |].
  exact (LiveProofs.chunk_after_open_waits s' q inputData sess Hact Hpend).
Qed.

(** Three chunks on each bridge before its handshake, and one chunk of
    the interactive bridge captured between [onopen] and the resolution
    of the promise. *)
Lemma no_audio_before_handshake_witness :
  Telephony.run Telephony.new_conn
    (map (fun p => Telephony.WsMessage (Telephony.MsgMedia p)) [[255]; [0; 127]; [143]])
    = (Telephony.new_conn, []) /\
  realtime_inputs (snd (Telephony.run Telephony.new_conn
    [Telephony.GeminiOpen; Telephony.WsMessage (Telephony.MsgMedia [255]);
     Telephony.WsMessage (Telephony.MsgStart "MZ1");
     Telephony.WsMessage (Telephony.MsgMedia [0; 127])])) = [] /\
  Live.run Live.new_service (map Live.EAudio [[1]; [2]; [3]]) = (Live.new_service, []) /\
  realtime_inputs (snd (Live.run Live.new_service
    [Live.EStart env0; Live.EOpen; Live.EAudio [1]; Live.EAudio [2]; Live.EAudio [3]])) = [] /\
  realtime_inputs (snd (Live.run Live.new_service
    [Live.EStart env0; Live.EAudio [1]; Live.EResolve sess0; Live.EAudio [2]])) = [] /\
  snd (Live.onaudioprocess [7; 8]
         (fst (Live.run Live.new_service [Live.EStart env0; Live.EOpen]))) = [] /\
  realtime_inputs
    (snd (Live.promise_resolved sess0
            (fst (Live.onaudioprocess [7; 8]
                    (fst (Live.run Live.new_service [Live.EStart env0; Live.EOpen]))))))
    = realtime_inputs (map Live.run_then [])
      ++ [Live.createPcmBlob [7; 8]
            (Live.actualSampleRate
               (fst (Live.run Live.new_service [Live.EStart env0; Live.EOpen])))].
Proof.
  apply (no_audio_before_handshake Telephony.new_conn [[255]; [0; 127]; [143]]
           [Telephony.GeminiOpen; Telephony.WsMessage (Telephony.MsgMedia [255]);
            Telephony.WsMessage (Telephony.MsgStart "MZ1");
            Telephony.WsMessage (Telephony.MsgMedia [0; 127])]
           Live.new_service [[1]; [2]; [3]]
           [Live.EStart env0; Live.EOpen; Live.EAudio [1]; Live.EAudio [2]; Live.EAudio [3]]
           [Live.EStart env0; Live.EAudio [1]; Live.EResolve sess0; Live.EAudio [2]]
           (fst (Live.run Live.new_service [Live.EStart env0; Live.EOpen]))
           [] [7; 8] sess0);
    reflexivity.
Defined.

(** The claim has such a chunk dropped. A session is started, [onopen]
    runs, one chunk is captured and only then does the session promise
    resolve: nothing has been submitted when the chunk has been
    handled, and the resolution submits that very chunk. *)
Lemma chunk_before_resolution_is_sent :
  realtime_inputs (snd (Live.run Live.new_service
    [Live.EStart env0; Live.EOpen; Live.EAudio [1; 2; 3]])) = [] /\
  realtime_inputs (snd (Live.run Live.new_service
    [Live.EStart env0; Live.EOpen; Live.EAudio [1; 2; 3]; Live.EResolve sess0]))
    = [{| rate := Live.sampleRate env0; pcm := [1; 2; 3] |}] /\
  realtime_inputs (snd (Live.run Live.new_service
    [Live.EStart env0; Live.EOpen; Live.EAudio [1; 2; 3]; Live.EResolve sess0])) <> [].
Proof.
  split; [reflexivity |]. split; [reflexivity |]. discriminate.
Qed.

(** C5. Stopping an established session twice: the track is stopped
    once and the context closed once, but the remote session is closed
    twice and each audio node is disconnected twice; a stop followed by
    the remote close disconnects the nodes twice as well. The claim asks
    for every resource to be released exactly once. *)
Theorem second_stop_releases_again :
  track_stops 0 (snd (Live.run Live.new_service (established ++ [Live.EStop; Live.EStop]))) = 1%nat /\
  context_closes (snd (Live.run Live.new_service (established ++ [Live.EStop; Live.EStop]))) = 1%nat /\
  session_closes (snd (Live.run Live.new_service (established ++ [Live.EStop; Live.EStop]))) = 2%nat /\
  source_disconnects (snd (Live.run Live.new_service (established ++ [Live.EStop; Live.EStop]))) = 2%nat /\
  processor_disconnects (snd (Live.run Live.new_service (established ++ [Live.EStop; Live.EStop]))) = 2%nat /\
  source_disconnects (snd (Live.run Live.new_service (established ++ [Live.EStop; Live.EClose]))) = 2%nat /\
  snd (Live.stopSession (fst (Live.stopSession active_service)))
    = [SessionClose 1; SourceDisconnect; ProcessorDisconnect].
Proof.
  split; [reflexivity |]. split; [reflexivity |]. split; [reflexivity |].
  split; [reflexivity |]. split; [reflexivity |]. split; reflexivity.
Qed.

(** C10. While the service is active [startSession] returns at its
    guard: the state is unchanged and no call is made, so no microphone
    is acquired, no context created and no connection opened, however
    often it is called. *)
Theorem start_while_active_is_noop
    (env : Live.StartEnv) (envs : list Live.StartEnv) (s : Live.Service)
    (Hact : Live.isActive s = true) :
  Live.startSession env s = (s, []) /\
  Live.run s (map Live.EStart envs) = (s, []) /\
  live_connects (snd (Live.run s (map Live.EStart envs))) = 0%nat.
Proof.
  split; [unfold Live.startSession; rewrite Hact; reflexivity |].
  rewrite (LiveProofs.starts_while_active envs s Hact).
  split; reflexivity.
Qed.

Lemma start_while_active_is_noop_witness :
  Live.isActive active_service = true /\
  Live.startSession env0 active_service = (active_service, []) /\
  live_connects (snd (Live.run Live.new_service established)) = 1%nat /\
  live_connects (snd (Live.run Live.new_service
                        (established ++ [Live.EStart env0; Live.EStart env0]))) = 1%nat.
Proof.
  destruct (start_while_active_is_noop env0 [env0; env0] active_service eq_refl)
    as (Hstart & _ & _).
  split; [reflexivity |]. split; [exact Hstart |]. split; reflexivity.
Defined.

End Lifecycle.

(** ** The playback scheduler *)

Module SimulatorProofs.
Import Remote Simulator.
Local Open Scope Q_scope.

(** With the output context and the analyser in place, a buffer starts
    at the later of the cursor and the device clock, and the cursor
    moves to the end of the buffer. *)
Lemma schedule_law s buffer currentTime :
  audioContextRef s = true -> analyserRef s = true ->
  onAudioData buffer currentTime s =
  (set_nextStartTime (Qmax (nextStartTimeRef s) currentTime + duration buffer) s,
   [SourceStart (Qmax (nextStartTimeRef s) currentTime)]).
Proof. intros Hc Ha. unfold onAudioData. rewrite Hc, Ha. reflexivity. Qed.

(** No buffer starts in the past. *)
Lemma start_not_in_past s buffer currentTime t :
  In t (starts (snd (onAudioData buffer currentTime s))) -> currentTime <= t.
Proof.
  unfold onAudioData.
  destruct (negb (audioContextRef s) || negb (analyserRef s)); simpl.
  - intros [].
  - intros [<- | []]. apply Q.le_max_r.
Qed.

(** The cursor never moves back while buffers of non-negative duration
    arrive. *)
Lemma cursor_monotone s buffer currentTime :
  0 <= duration buffer ->
  nextStartTimeRef s <= nextStartTimeRef (fst (onAudioData buffer currentTime s)).
Proof.
  intros Hd. unfold onAudioData.
  destruct (negb (audioContextRef s) || negb (analyserRef s)); simpl.
  - apply Qle_refl.
  - apply Qle_trans with (Qmax (nextStartTimeRef s) currentTime).
    + apply Q.le_max_l.
    + rewrite <- (Qplus_0_r (Qmax (nextStartTimeRef s) currentTime)) at 1.
      apply Qplus_le_r. exact Hd.
Qed.

(** Hanging up stops the service and puts the cursor back to zero. *)
Lemma hangup_resets s :
  nextStartTimeRef (fst (handleHangUp s)) = 0 /\ snd (handleHangUp s) = [ServiceStop].
Proof. split; reflexivity. Qed.

(** The two callbacks by which the service reports the end of a
    session leave the cursor where it was. *)
Lemma remote_end_keeps_cursor s message :
  nextStartTimeRef (fst (onDisconnect s)) = nextStartTimeRef s /\
  nextStartTimeRef (fst (onError message s)) = nextStartTimeRef s.
Proof. split; reflexivity. Qed.

(** Of the events that end a session, the hang-up alone resets the
    cursor. *)
Lemma cursor_after_session_end s e :
  ends_session e = true ->
  nextStartTimeRef (fst (step s e)) =
  match e with
  | HangUp => 0
  | _ => nextStartTimeRef s
  end.
Proof. destruct e; intros He; try discriminate; reflexivity. Qed.

(** C9. A session that plays one buffer of half a second at clock time
    1 and is then closed by the remote side: the component is idle and
    disconnected, and the cursor still reads 3/2; the same after a
    connection error; after a hang-up it reads 0. The first buffer of
    the next session, arriving at clock time 6/5, is started at the
    stale 3/2. The claim asks for the cursor to be zero whenever a
    session has ended. *)
Theorem cursor_survives_remote_close :
  starts (snd (run new_sim [StartCall false; Connected;
                            AudioData {| duration := 1 # 2 |} 1])) = [1] /\
  nextStartTimeRef (fst (run new_sim [StartCall false; Connected;
                                      AudioData {| duration := 1 # 2 |} 1;
                                      Disconnected])) = 3 # 2 /\
  status (fst (run new_sim [StartCall false; Connected;
                            AudioData {| duration := 1 # 2 |} 1;
                            Disconnected])) = idle /\
  isConnected (fst (run new_sim [StartCall false; Connected;
                                 AudioData {| duration := 1 # 2 |} 1;
                                 Disconnected])) = false /\
  nextStartTimeRef (fst (run new_sim [StartCall false; Connected;
                                      AudioData {| duration := 1 # 2 |} 1;
                                      Failed "Connection error"])) = 3 # 2 /\
  nextStartTimeRef (fst (run new_sim [StartCall false; Connected;
                                      AudioData {| duration := 1 # 2 |} 1;
                                      HangUp])) = 0 /\
  starts (snd (run new_sim [StartCall false; Connected;
                            AudioData {| duration := 1 # 2 |} 1;
                            Disconnected;
                            StartCall false; Connected;
                            AudioData {| duration := 1 # 2 |} (6 # 5)])) = [1; 3 # 2].
Proof.
  split; [reflexivity |]. split; [reflexivity |]. split; [reflexivity |].
  split; [reflexivity |]. split; [reflexivity |]. split; reflexivity.
Qed.

End SimulatorProofs.

(** * Further properties of the code *)

(** ** The codec layer *)

Module CodecExtras.
Import JS JSFacts Codec CodecProofs.
Local Open Scope Z_scope.

Lemma encodeMulaw_lookup pcmData :
  length (encodeMulaw pcmData) = length pcmData /\
  forall j, (j < length pcmData)%nat ->
    encodeMulaw pcmData !! j = encode_sample <$> pcmData !! j.
Proof.
  set (n := length pcmData).
  pose (Inv := fun (k : nat) (o : list Z) =>
    length o = n /\
    forall j, (j < k)%nat -> o !! j = encode_sample <$> pcmData !! j).
  assert (Hend : Inv (0 + n)%nat (encodeMulaw pcmData)).
  { unfold encodeMulaw. apply for_range_inv.
    - split; [apply length_replicate | intros j Hj; lia].
    - intros j t Hj [Hl Hlook].
      destruct (lookup_lt_is_Some_2 pcmData j ltac:(fold n; lia)) as [x Hx].
      rewrite Hx. split.
      + now rewrite length_insert.
      + intros k Hk. destruct (decide (k = j)) as [-> | Hne].
        * rewrite Hx. simpl. apply list_lookup_insert_eq. lia.
        * rewrite list_lookup_insert_ne by congruence. apply Hlook. lia. }
  exact Hend.
Qed.

Lemma encode_sample_byte x : is_byte (encode_sample x).
Proof.
  unfold encode_sample. destruct (encode_fields x) as [[sign e] m].
  unfold is_byte, to_uint8. apply Z.mod_pos_bound. lia.
Qed.

(** X1. [encodeMulaw] encodes sample by sample: the buffer has the
    length of the input, holds [encode_sample] of each sample in order,
    and every element is a byte. *)
Theorem encodeMulaw_pointwise (pcmData : list Z) :
  encodeMulaw pcmData = map encode_sample pcmData /\
  length (encodeMulaw pcmData) = length pcmData /\
  Forall is_byte (encodeMulaw pcmData).
Proof.
  destruct (encodeMulaw_lookup pcmData) as [Hlen Hlook].
  assert (Heq : encodeMulaw pcmData = map encode_sample pcmData).
  { apply list_eq. intros k. rewrite list_lookup_fmap.
    destruct (decide (k < length pcmData)%nat) as [Hk | Hk].
    - apply Hlook. exact Hk.
    - rewrite !lookup_ge_None_2 by lia. reflexivity. }
  split; [exact Heq |]. split; [exact Hlen |].
  rewrite Heq. apply Forall_forall. intros b Hb.
  apply list_elem_of_fmap in Hb as [x [-> _]]. apply encode_sample_byte.
Qed.

(** *** The shape of the decode table *)

Lemma table_low_half :
  forallb (fun b =>
    (0 <=? companding_expand b) && (companding_expand b <=? 32124) &&
    (companding_expand (b + 128) =? - companding_expand b))
    (map Z.of_nat (seq 0 128)) = true.
Proof. vm_compute. reflexivity. Qed.

Lemma table_steps_up :
  forallb (fun b => companding_expand b <? companding_expand (b + 1))
    (map Z.of_nat (seq 0 127)) = true.
Proof. vm_compute. reflexivity. Qed.

Lemma small_cases (P : Z -> bool) (n : nat) :
  forallb P (map Z.of_nat (seq 0 n)) = true ->
  forall b, 0 <= b < Z.of_nat n -> P b = true.
Proof.
  intros Hall b [Hlo Hhi]. rewrite forallb_forall in Hall. apply Hall.
  rewrite <- (Z2Nat.id b) by exact Hlo. apply in_map, in_seq. lia.
Qed.

Lemma expand_increasing (k : nat) :
  forall b, 0 <= b -> b + Z.of_nat (S k) < 128 ->
  companding_expand b < companding_expand (b + Z.of_nat (S k)).
Proof.
  induction k as [| k IH]; intros b Hb Hhi.
  - pose proof (small_cases _ 127 table_steps_up b ltac:(lia)) as H.
    apply Z.ltb_lt in H. exact H.
  - pose proof (IH b Hb ltac:(lia)) as H1.
    pose proof (small_cases _ 127 table_steps_up (b + Z.of_nat (S k)) ltac:(lia)) as H2.
    apply Z.ltb_lt in H2.
    replace (b + Z.of_nat (S (S k))) with (b + Z.of_nat (S k) + 1) by lia. lia.
Qed.

(** X5. The decode table is odd and strictly increasing: a byte with
    bit 7 set decodes to the negative of the byte without it, the 128
    bytes without bit 7 decode to strictly increasing values from 0 up
    to 32124, so two different bytes of the same sign never decode to
    the same sample. *)
Theorem table_odd_and_increasing (b b' : Z) (Hb : 0 <= b) (Hlt : b < b') (Hb' : b' < 128) :
  exists v v',
    table_get b = Some v /\ table_get b' = Some v' /\
    table_get (b + 128) = Some (- v) /\ table_get (b' + 128) = Some (- v') /\
    0 <= v /\ v < v' /\ v' <= 32124 /\
    table_get 0 = Some 0.
Proof.
  exists (companding_expand b), (companding_expand b').
  destruct (table_get_law b ltac:(unfold is_byte; lia)) as [Hg _].
  destruct (table_get_law b' ltac:(unfold is_byte; lia)) as [Hg' _].
  destruct (table_get_law (b + 128) ltac:(unfold is_byte; lia)) as [Hn _].
  destruct (table_get_law (b' + 128) ltac:(unfold is_byte; lia)) as [Hn' _].
  pose proof (small_cases _ 128 table_low_half b ltac:(lia)) as H.
  pose proof (small_cases _ 128 table_low_half b' ltac:(lia)) as H'.
  apply andb_prop in H as [H Hodd]. apply andb_prop in H as [Hlo Hhi].
  apply andb_prop in H' as [H' Hodd']. apply andb_prop in H' as [Hlo' Hhi'].
  apply Z.eqb_eq in Hodd, Hodd'. apply Z.leb_le in Hlo, Hhi, Hlo', Hhi'.
  rewrite Hodd in Hn. rewrite Hodd' in Hn'.
  assert (Hinc : companding_expand b < companding_expand b').
  { replace b' with (b + Z.of_nat (S (Z.to_nat (b' - b - 1)))) by lia.
    apply expand_increasing; lia. }
  split; [exact Hg |]. split; [exact Hg' |]. split; [exact Hn |].
  split; [exact Hn' |]. split; [exact Hlo |]. split; [exact Hinc |].
  split; [exact Hhi' |]. vm_compute. reflexivity.
Qed.

Lemma table_odd_and_increasing_witness :
  exists v v',
    table_get 0x0F = Some v /\ table_get 0x10 = Some v' /\
    table_get (0x0F + 128) = Some (- v) /\ table_get (0x10 + 128) = Some (- v') /\
    0 <= v /\ v < v' /\ v' <= 32124 /\
    table_get 0 = Some 0.
Proof. apply (table_odd_and_increasing 0x0F 0x10); lia. Defined.

(** *** What the encoder tells apart *)

Lemma encode_fields_small x :
  0 <= x -> x + 0x84 < 1024 ->
  encode_fields x = (0, find_exponent 8 0 (x + 0x84), 0).
Proof.
  intros Hx Hsmall.
  assert (H16 : is_int16 x) by (unfold is_int16; lia).
  destruct (encoder_levels x H16) as [_ Hm].
  specialize (Hm ltac:(lia)).
  destruct (encode_fields x) as [[sign e] m] eqn:E. simpl in Hm. subst m.
  unfold encode_fields in E.
  replace (x <? -32768) with false in E by (symmetry; apply Z.ltb_ge; lia).
  replace (x >? 32767) with false in E by (symmetry; rewrite Z.gtb_ltb; apply Z.ltb_ge; lia).
  replace (x <? 0) with false in E by (symmetry; apply Z.ltb_ge; lia).
  inversion E. reflexivity.
Qed.

(** X3. Below 892 the encoder has three output bytes for non-negative
    samples: 0xAF for 0..123, 0x9F for 124..379 and 0x8F for 380..891
    (the byte it also stores for 32767). *)
Theorem encoder_coarse_bands (x : Z) (Hx : 0 <= x) (Hsmall : x < 892) :
  encode_sample x =
  if x <? 124 then 0xAF else if x <? 380 then 0x9F else 0x8F.
Proof.
  unfold encode_sample. rewrite encode_fields_small by lia.
  rewrite find_exponent_unfold.
  destruct (Z.ltb_spec x 124); [| destruct (Z.ltb_spec x 380)];
    repeat match goal with
           | |- context [?u <? ?w] =>
               destruct (Z.ltb_spec u w); try lia
           end; vm_compute; reflexivity.
Qed.

Lemma encoder_coarse_bands_witness :
  encode_sample 0 = 0xAF /\ encode_sample 123 = 0xAF /\
  encode_sample 124 = 0x9F /\ encode_sample 891 = 0x8F.
Proof.
  split; [apply (encoder_coarse_bands 0); lia |].
  split; [apply (encoder_coarse_bands 123); lia |].
  split; [apply (encoder_coarse_bands 124); lia |].
  apply (encoder_coarse_bands 891); lia.
Defined.

(** *** The sign of a round trip, both ways *)

Lemma packed_bytes_low :
  forallb (fun e =>
    forallb (fun m =>
      to_uint8 (JS.not (JS.or (JS.or 0x80 (JS.shl e 4)) m)) <? 128)
      (map Z.of_nat (seq 0 16)))
    (map Z.of_nat (seq 0 8)) = true.
Proof. vm_compute. reflexivity. Qed.

Lemma encode_negative_low x :
  x < 0 -> 0 <= encode_sample x < 128.
Proof.
  intros Hx. unfold encode_sample, encode_fields.
  set (c0 := if x <? -32768 then -32768 else x).
  assert (Hc0 : c0 < 0) by (unfold c0; destruct (x <? -32768); lia).
  replace (c0 >? 32767) with false by (symmetry; rewrite Z.gtb_ltb; apply Z.ltb_ge; lia).
  replace (c0 <? 0) with true by (symmetry; apply Z.ltb_lt; lia).
  set (e := find_exponent 8 0 (- c0 + 132)).
  set (m := JS.and (JS.shr (- c0 + 132) (e + 3)) 15).
  assert (He : 0 <= e <= 7) by apply find_exponent_range.
  assert (Hm : 0 <= m <= 15) by apply mantissa_range.
  split; [unfold to_uint8; apply Z.mod_pos_bound; lia |].
  pose proof (small_cases _ 8 packed_bytes_low e ltac:(lia)) as Hall.
  cbv beta in Hall.
  pose proof (small_cases _ 16 Hall m ltac:(lia)) as H.
  apply Z.ltb_lt in H. exact H.
Qed.

(** X4. The round trip never keeps the sign of a sample: encoding a
    16-bit sample and decoding the byte gives exactly one value, which
    is not positive when the sample is non-negative and not negative
    when the sample is negative. *)
Theorem roundtrip_inverts_sign (x : Z) (Hx : is_int16 x) :
  exists v, decodeMulaw (encodeMulaw [x]) = [v] /\
            (0 <= x -> v <= 0) /\ (x < 0 -> 0 <= v).
Proof.
  pose proof (encode_sample_byte x) as Hb.
  exists (companding_expand (encode_sample x)). split.
  - change (encodeMulaw [x]) with [encode_sample x].
    rewrite decodeMulaw_bytes by (constructor; [exact Hb | constructor]).
    reflexivity.
  - split; intros Hsign.
    + destruct (roundtrip_flips_sign x ltac:(unfold is_int16 in Hx; lia))
        as (v & Hv & Hle & _).
      change (encodeMulaw [x]) with [encode_sample x] in Hv.
      rewrite decodeMulaw_bytes in Hv by (constructor; [exact Hb | constructor]).
      simpl in Hv. inversion Hv. lia.
    + destruct (encode_negative_low x Hsign) as [Hlo Hhi].
      pose proof (small_cases _ 128 table_low_half (encode_sample x) ltac:(lia)) as H.
      apply andb_prop in H as [H _]. apply andb_prop in H as [H _].
      apply Z.leb_le in H. exact H.
Qed.

Lemma roundtrip_inverts_sign_witness :
  exists v, decodeMulaw (encodeMulaw [-20000]) = [v] /\
            (0 <= -20000 -> v <= 0) /\ (-20000 < 0 -> 0 <= v).
Proof. apply (roundtrip_inverts_sign (-20000)). unfold is_int16. lia. Defined.


End CodecExtras.

(** ** The telephony bridge *)

Module TelephonyExtras.
Import Remote Telephony Observe.
Import JS JSFacts.
Local Open Scope string_scope.
Local Open Scope list_scope.

Lemma resample24kTo8k_lookup input :
  Forall is_int16 input ->
  length (Codec.resample24kTo8k input) = (length input / 3)%nat /\
  forall i, (i < length input / 3)%nat ->
    Codec.resample24kTo8k input !! i = input !! (3 * i)%nat.
Proof.
  intros Hpcm. rewrite CodecProofs.resample24kTo8k_tabulate. split.
  - now rewrite length_map, length_seq.
  - intros i Hi.
    assert (Hin : (3 * i < length input)%nat).
    { pose proof (Nat.div_mod_eq (length input) 3). lia. }
    destruct (lookup_lt_is_Some_2 input (3 * i)%nat Hin) as [x Hx].
    assert (Hx16 : is_int16 x) by (eapply Forall_lookup_1; eassumption).
    rewrite Hx.
    rewrite list_lookup_fmap, lookup_seq_lt by exact Hi. simpl.
    replace (i * 3)%nat with (3 * i)%nat by lia.
    rewrite Hx. cbn [store_int16]. f_equal. apply to_int16_id. exact Hx16.
Qed.

(** X6. The inbound pump: with a session, one media event carrying
    [n] bytes makes exactly one submission, tagged 16000 Hz, of [2n]
    samples in which positions [2i] and [2i + 1] both hold the table's
    value for byte [i]; the connection is unchanged. *)
Theorem inbound_frame (c : Conn) (sess : Session) (payload : list Z)
    (Hs : geminiSession c = Some sess) (Hb : Forall is_byte payload) :
  exists frame,
    on_ws_message (MsgMedia payload) c = (c, [SendRealtimeInput frame]) /\
    rate frame = 16000%Z /\
    length (pcm frame) = (2 * length payload)%nat /\
    forall i b, payload !! i = Some b ->
      pcm frame !! (2 * i)%nat = Codec.table_get b /\
      pcm frame !! (2 * i + 1)%nat = Codec.table_get b.
Proof.
  exists (telephony_frame payload). cbn [on_ws_message]. rewrite Hs.
  split; [reflexivity |]. split; [reflexivity |].
  unfold telephony_frame. cbn [pcm].
  destruct (CodecProofs.resample8kTo16k_spec (Codec.decodeMulaw payload)) as [Hlen Hup].
  rewrite (CodecProofs.decodeMulaw_bytes payload Hb) in *.
  rewrite length_map in *. split; [exact Hlen |].
  intros i b Hi.
  assert (Hbyte : is_byte b) by (eapply Forall_lookup_1; eassumption).
  destruct (CodecProofs.table_get_law b Hbyte) as [Hget Hrange].
  destruct (Hup i) as [H0 H1]; [eapply lookup_lt_Some; eassumption |].
  rewrite H0, H1, list_lookup_fmap, Hi, Hget. simpl.
  rewrite to_int16_id by exact Hrange. split; reflexivity.
Qed.

Lemma inbound_frame_witness :
  exists frame,
    on_ws_message (MsgMedia [0; 143]%Z)
      (fst (handshake_resolved Scenario.sess0 new_conn))
    = (fst (handshake_resolved Scenario.sess0 new_conn), [SendRealtimeInput frame]) /\
    rate frame = 16000%Z /\
    length (pcm frame) = 4%nat /\
    forall i b, [0; 143]%Z !! i = Some b ->
      pcm frame !! (2 * i)%nat = Codec.table_get b /\
      pcm frame !! (2 * i + 1)%nat = Codec.table_get b.
Proof.
  apply (inbound_frame (fst (handshake_resolved Scenario.sess0 new_conn))
           Scenario.sess0 [0; 143]%Z eq_refl).
  repeat constructor; unfold is_byte; lia.
Defined.

(** X7. The outbound transcoding, [encodeMulaw (resample24kTo8k pcm24k)]
    as the message callback applies it to the [Int16Array] it has
    built: whatever [n] 16-bit samples the array holds, the frame has
    [floor (n / 3)] bytes, the [i]-th being the encoding of sample
    [3i]. *)
Theorem outbound_transcoding (pcm24k : list Z) (H16 : Forall is_int16 pcm24k) :
  length (Codec.encodeMulaw (Codec.resample24kTo8k pcm24k)) = (length pcm24k / 3)%nat /\
  Forall is_byte (Codec.encodeMulaw (Codec.resample24kTo8k pcm24k)) /\
  forall i, (i < length pcm24k / 3)%nat ->
    Codec.encodeMulaw (Codec.resample24kTo8k pcm24k) !! i
    = Codec.encode_sample <$> pcm24k !! (3 * i)%nat.
Proof.
  destruct (resample24kTo8k_lookup pcm24k H16) as [Hlen Hlook].
  destruct (CodecExtras.encodeMulaw_lookup (Codec.resample24kTo8k pcm24k)) as [Hl He].
  split; [now rewrite Hl |].
  split.
  - apply Forall_lookup_2. intros j b Hj.
    rewrite He in Hj by (eapply lookup_lt_Some in Hj; now rewrite Hl in Hj).
    destruct (Codec.resample24kTo8k pcm24k !! j) as [x |]; [| discriminate].
    inversion Hj. apply CodecExtras.encode_sample_byte.
  - intros i Hi. rewrite He by (rewrite Hlen; exact Hi). now rewrite Hlook.
Qed.

Lemma outbound_transcoding_witness :
  length (Codec.encodeMulaw (Codec.resample24kTo8k [0; 7; 7; 32767; 7; 7; 5]%Z)) = 2%nat /\
  Forall is_byte (Codec.encodeMulaw (Codec.resample24kTo8k [0; 7; 7; 32767; 7; 7; 5]%Z)) /\
  forall i, (i < 2)%nat ->
    Codec.encodeMulaw (Codec.resample24kTo8k [0; 7; 7; 32767; 7; 7; 5]%Z) !! i
    = Codec.encode_sample <$> [0; 7; 7; 32767; 7; 7; 5]%Z !! (3 * i)%nat.
Proof.
  apply (outbound_transcoding [0; 7; 7; 32767; 7; 7; 5]%Z).
  repeat constructor; unfold is_int16; lia.
Defined.

(** *** What the connection keeps *)

Lemma step_keeps_session c e :
  listening c = true -> is_Some (geminiSession c) ->
  listening (fst (step c e)) = true /\ is_Some (geminiSession (fst (step c e))).
Proof.
  intros Hl Hs.
  destruct e as [| | msg | | | sess | | m |]; simpl; try (split; assumption).
  - split; [reflexivity | eexists; reflexivity].
  - rewrite Hl. destruct m as [sid | payload | | ev]; simpl; try (split; assumption).
    replace (fst (match geminiSession c with
                  | Some _ => (c, [SendRealtimeInput
                                     {| rate := 16000;
                                        pcm := Codec.resample8kTo16k
                                                 (Codec.decodeMulaw payload) |}])
                  | None => (c, [])
                  end)) with c by (destruct (geminiSession c); reflexivity).
    split; assumption.
  - rewrite Hl. simpl. split; assumption.
Qed.

Lemma run_keeps_session es :
  forall c, listening c = true -> is_Some (geminiSession c) ->
  listening (fst (run c es)) = true /\ is_Some (geminiSession (fst (run c es))).
Proof.
  induction es as [| e es IH]; intros c Hl Hs; simpl; [split; assumption |].
  destruct (step_keeps_session c e Hl Hs) as [Hl1 Hs1].
  destruct (step c e) as [c1 out1]. simpl in Hl1, Hs1.
  destruct (IH c1 Hl1 Hs1) as [Hl2 Hs2].
  destruct (run c1 es) as [c2 out2]. simpl in *. split; assumption.
Qed.

(** X8. Frames are forwarded one per media event and in arrival order:
    on a connection with a session, a run of media events leaves the
    connection as it was and submits exactly the frames of the
    payloads, in order, with no batching and nothing else. *)
Theorem frames_forwarded_in_order (c : Conn) (payloads : list (list Z))
    (Hl : listening c = true) (Hs : is_Some (geminiSession c)) :
  run c (map (fun p => WsMessage (MsgMedia p)) payloads) =
  (c, map (fun p => SendRealtimeInput (telephony_frame p)) payloads).
Proof.
  destruct Hs as [sess Hs].
  induction payloads as [| p ps IH]; [reflexivity |].
  cbn [map run step]. rewrite Hl. cbn [on_ws_message]. rewrite Hs, IH. reflexivity.
Qed.

Lemma frames_forwarded_in_order_witness :
  run (fst (handshake_resolved Scenario.sess0 new_conn))
      (map (fun p => WsMessage (MsgMedia p)) [[1]; [2]; [3]]%Z) =
  (fst (handshake_resolved Scenario.sess0 new_conn),
   map (fun p => SendRealtimeInput (telephony_frame p)) [[1]; [2]; [3]]%Z).
Proof.
  apply (frames_forwarded_in_order (fst (handshake_resolved Scenario.sess0 new_conn))
           [[1]; [2]; [3]]%Z eq_refl).
  eexists. reflexivity.
Defined.

(** X9. Nothing ever clears the session or removes the listeners: once
    the handshake has resolved, whatever events follow (a stop event,
    the remote session closing or failing, the socket closing), the
    next media event is still submitted to the remote session. *)
Theorem media_forwarded_after_any_events
    (c : Conn) (es : list Event) (payload : list Z)
    (Hl : listening c = true) (Hs : is_Some (geminiSession c)) :
  snd (step (fst (run c es)) (WsMessage (MsgMedia payload))) =
  [SendRealtimeInput (telephony_frame payload)].
Proof.
  destruct (run_keeps_session es c Hl Hs) as [Hl' [sess Hs']].
  cbn [step]. rewrite Hl'. cbn [on_ws_message]. rewrite Hs'. reflexivity.
Qed.

Lemma media_forwarded_after_any_events_witness :
  snd (step (fst (run (fst (handshake_resolved Scenario.sess0 new_conn))
                    [WsMessage MsgStop; GeminiClose; WsClosed]))
         (WsMessage (MsgMedia [255]%Z))) =
  [SendRealtimeInput (telephony_frame [255]%Z)].
Proof.
  apply (media_forwarded_after_any_events
           (fst (handshake_resolved Scenario.sess0 new_conn))
           [WsMessage MsgStop; GeminiClose; WsClosed] [255]%Z eq_refl).
  eexists. reflexivity.
Defined.

(** X10. A call that ends with a stop event followed by the socket
    closing calls [close] on the remote session twice, once from each
    handler. *)
Theorem stop_then_close_closes_twice (c : Conn) (sess : Session)
    (Hl : listening c = true) (Hs : geminiSession c = Some sess) :
  snd (run c [WsMessage MsgStop; WsClosed]) =
  [ConsoleLog "Stream stopped"; SessionClose (session_id sess);
   ConsoleLog "Twilio Disconnected"; SessionClose (session_id sess)] /\
  session_closes (snd (run c [WsMessage MsgStop; WsClosed])) = 2%nat.
Proof.
  cbn [run step]. rewrite Hl. unfold on_ws_message, on_ws_close, close_session.
  rewrite Hs, Hl. split; reflexivity.
Qed.

Lemma stop_then_close_closes_twice_witness :
  session_closes (snd (run (fst (handshake_resolved Scenario.sess0 new_conn))
                         [WsMessage MsgStop; WsClosed])) = 2%nat.
Proof.
  apply (stop_then_close_closes_twice
           (fst (handshake_resolved Scenario.sess0 new_conn)) Scenario.sess0
           eq_refl eq_refl).
Defined.

(** X11. When the connection to the remote session fails, the handler
    logs, closes the socket and registers no listener: whatever the
    socket delivers afterwards reaches no code. *)
Theorem failed_handshake_serves_nothing (ms : list TwilioMsg) :
  run new_conn ([Connection; HandshakeFailed] ++ map WsMessage ms ++ [WsClosed]) =
  (new_conn,
   [ConsoleLog "New Twilio Connection"; LiveConnect;
    ConsoleError "Failed to connect to Gemini"; WsClose]).
Proof.
  cbn [app run step on_connection handshake_failed].
  assert (H : run new_conn (map WsMessage ms ++ [WsClosed]) = (new_conn, [])).
  { induction ms as [| m ms IH]; [reflexivity |].
    cbn [map app run step]. cbn [listening new_conn]. rewrite IH. reflexivity. }
  rewrite H. reflexivity.
Qed.

(** *** The stream identifier *)






End TelephonyExtras.

(** ** The interactive bridge *)

Module LiveExtras.
Import Remote Live LiveProofs Observe.
Local Open Scope string_scope.
Local Open Scope list_scope.

Lemma count_none (p : Call -> bool) (cs : list Call) :
  Forall (fun c => p c = false) cs -> count p cs = 0%nat.
Proof.
  unfold count. induction 1 as [| c cs Hc _ IH]; simpl; [reflexivity |].
  now rewrite Hc.
Qed.

Lemma count_app (p : Call -> bool) (a b : list Call) :
  count p (a ++ b) = (count p a + count p b)%nat.
Proof. unfold count. now rewrite List.filter_app, length_app. Qed.

Lemma cleanup_count (p : Call -> bool) s :
  (forall c, is_release c = true -> p c = false) -> count p (snd (cleanup s)) = 0%nat.
Proof.
  intros Hp. apply count_none.
  eapply Forall_impl; [apply cleanup_releases | exact Hp].
Qed.

Lemma cleanup_state s :
  stream (fst (cleanup s)) = None /\
  inputAudioContext (fst (cleanup s)) = None /\
  isActive (fst (cleanup s)) = false /\
  sessionPromise (fst (cleanup s)) = sessionPromise s /\
  session (fst (cleanup s)) = session s /\
  processor (fst (cleanup s)) = processor s /\
  inputSource (fst (cleanup s)) = inputSource s.
Proof.
  unfold cleanup. destruct s as [ss ctx src prc str act p r]; simpl.
  destruct str, ctx; simpl; repeat split.
Qed.

Lemma cleanup_tracks s :
  tracks_stopped (snd (cleanup s)) = default [] (stream s) /\
  context_closes (snd (cleanup s)) =
    match inputAudioContext s with Some _ => 1%nat | None => 0%nat end.
Proof.
  assert (Hts : forall l,
            omap (fun c => match c with TrackStop t => Some t | _ => None end)
              (map TrackStop l) = l).
  { induction l as [| t l IH]; [reflexivity |]. simpl. f_equal. exact IH. }
  assert (Hcs : forall l,
            count (fun c => match c with ContextClose => true | _ => false end)
              (map TrackStop l) = 0%nat).
  { intros l. apply count_none, Forall_forall. intros c Hc.
    apply list_elem_of_fmap in Hc as [t [-> _]]. reflexivity. }
  unfold cleanup. destruct s as [ss ctx src prc str act p r]; simpl.
  unfold tracks_stopped, context_closes.
  destruct str as [tracks |], prc, src, ctx; simpl;
    rewrite ?omap_app, ?count_app, ?Hts, ?Hcs; simpl; rewrite ?app_nil_r;
    split; reflexivity.
Qed.

Lemma run_app s es1 es2 :
  run s (es1 ++ es2) =
  (fst (run (fst (run s es1)) es2),
   snd (run s es1) ++ snd (run (fst (run s es1)) es2)).
Proof.
  revert s. induction es1 as [| e es1 IH]; intros s; simpl.
  - destruct (run s es2). reflexivity.
  - destruct (step s e) as [s1 out1]. rewrite IH.
    destruct (run s1 es1) as [s2 out2]. simpl.
    now rewrite app_assoc.
Qed.

(** X13. When the microphone is refused, [startSession] reports the
    error to the collaborator once, opens no connection, and leaves the
    service inactive with no stream and no audio context. *)
Theorem microphone_refused (s : Service) (env : StartEnv)
    (Hin : isActive s = false) (Hm : media env = None) :
  errors_reported (snd (startSession env s)) = [failure env] /\
  live_connects (snd (startSession env s)) = 0%nat /\
  isActive (fst (startSession env s)) = false /\
  stream (fst (startSession env s)) = None /\
  inputAudioContext (fst (startSession env s)) = None /\
  sessionPromise (fst (startSession env s)) = sessionPromise s.
Proof.
  unfold startSession. rewrite Hin, Hm, emit_then. cbn [fst snd].
  destruct (cleanup_state s) as (Hst & Hctx & Hact & Hp & _).
  split.
  - unfold errors_reported. rewrite omap_app.
    rewrite (cleanup_quiet _ s) by (intros c Hc; destruct c; try reflexivity; discriminate).
    reflexivity.
  - split.
    + unfold live_connects. rewrite count_app.
      rewrite (cleanup_count _ s) by (intros c Hc; destruct c; try reflexivity; discriminate).
      reflexivity.
    + repeat split; assumption.
Qed.

Lemma microphone_refused_witness :
  errors_reported
    (snd (startSession {| media := None; failure := "NotAllowedError";
                          suspended := false; sampleRate := 48000 |} new_service))
    = ["NotAllowedError"] /\
  live_connects
    (snd (startSession {| media := None; failure := "NotAllowedError";
                          suspended := false; sampleRate := 48000 |} new_service))
    = 0%nat.
Proof.
  destruct (microphone_refused new_service
              {| media := None; failure := "NotAllowedError";
                 suspended := false; sampleRate := 48000 |} eq_refl eq_refl)
    as (He & Hc & _).
  split; [exact He | exact Hc].
Defined.

(** X14. When the connection fails after the microphone was granted,
    the error is reported once and what [startSession] acquired is
    released: every track of the stream is stopped once, in order, the
    context is closed once, and the service is left inactive with no
    stream and no context. *)
Theorem failed_connection_released
    (s : Service) (env : StartEnv) (tracks : list nat) (message : string)
    (Hin : isActive s = false) (Hm : media env = Some tracks) :
  errors_reported (snd (run s [EStart env; EReject message])) = [message] /\
  tracks_stopped (snd (run s [EStart env; EReject message])) = tracks /\
  context_closes (snd (run s [EStart env; EReject message])) = 1%nat /\
  isActive (fst (run s [EStart env; EReject message])) = false /\
  stream (fst (run s [EStart env; EReject message])) = None /\
  inputAudioContext (fst (run s [EStart env; EReject message])) = None.
Proof.
  cbn [run step]. unfold startSession. rewrite Hin, Hm.
  unfold promise_rejected. cbn [sessionPromise set_closure].
  rewrite emit_then. cbn [fst snd].
  set (s1 := set_closure Rejected _ _).
  destruct (cleanup_state s1) as (Hst & Hctx & Hact & _).
  destruct (cleanup_tracks s1) as [Htr Hcc].
  assert (Hq : errors_reported (snd (cleanup s1)) = [])
    by (apply cleanup_quiet; intros c Hc; destruct c; try reflexivity; discriminate).
  rewrite !app_nil_r.
  split.
  { unfold errors_reported in *. rewrite !omap_app, Hq.
    destruct (suspended env); reflexivity. }
  split.
  { unfold tracks_stopped in *. rewrite !omap_app, Htr.
    destruct (suspended env); reflexivity. }
  split.
  { unfold context_closes in *. rewrite !count_app, Hcc.
    destruct (suspended env); reflexivity. }
  repeat split; assumption.
Qed.

Lemma failed_connection_released_witness :
  errors_reported (snd (run new_service [EStart Scenario.env0; EReject "refused"]))
    = ["refused"] /\
  tracks_stopped (snd (run new_service [EStart Scenario.env0; EReject "refused"]))
    = [0%nat] /\
  context_closes (snd (run new_service [EStart Scenario.env0; EReject "refused"]))
    = 1%nat.
Proof.
  destruct (failed_connection_released new_service Scenario.env0 [0%nat] "refused"
              eq_refl eq_refl) as (He & Ht & Hc & _).
  split; [exact He |]. split; [exact Ht | exact Hc].
Defined.

(** *** Audio waiting on the promise *)

Lemma chunks_wait chunks :
  forall s q, isActive s = true -> is_Some (processor s) ->
    sessionPromise s = Pending q ->
    run s (map EAudio chunks) =
    (set_closure
       (Pending (q ++ map (fun d => ThenSendAudio (createPcmBlob d (actualSampleRate s)))
                        chunks))
       (actualSampleRate s) s, []).
Proof.
  induction chunks as [| d chunks IH]; intros s q Hact [prc Hprc] Hp.
  - simpl. rewrite app_nil_r. destruct s; simpl in *; now subst.
  - cbn [map run step]. rewrite Hprc.
    unfold onaudioprocess, promise_then. rewrite Hact, Hp. cbn [negb].
    rewrite (IH _ (q ++ [ThenSendAudio (createPcmBlob d (actualSampleRate s))]));
      [| exact Hact | exists prc; exact Hprc | reflexivity].
    cbn [actualSampleRate set_closure]. simpl. rewrite <- app_assoc. reflexivity.
Qed.

Lemma inputs_audio_thens r chunks :
  realtime_inputs
    (map run_then (map (fun d => ThenSendAudio (createPcmBlob d r)) chunks)) =
  map (fun d => createPcmBlob d r) chunks.
Proof.
  induction chunks as [| d chunks IH]; [reflexivity |].
  unfold realtime_inputs in *. simpl. f_equal. exact IH.
Qed.

(** X15. Audio captured after [onopen] while the session promise is
    still pending is neither submitted nor lost: nothing is sent while
    the promise is pending, and when it resolves the chunks are
    submitted in capture order, after what was already waiting, each
    tagged with the sample rate captured at start. *)
Theorem queued_chunks_sent_in_order
    (s : Service) (q : list Then) (chunks : list (list Z)) (sess : Session)
    (Hact : isActive s = true) (Hproc : is_Some (processor s))
    (Hp : sessionPromise s = Pending q) :
  snd (run s (map EAudio chunks)) = [] /\
  realtime_inputs (snd (run s (map EAudio chunks ++ [EResolve sess]))) =
    realtime_inputs (map run_then q) ++
    map (fun d => {| rate := actualSampleRate s; pcm := d |}) chunks.
Proof.
  pose proof (chunks_wait chunks s q Hact Hproc Hp) as Hrun.
  split; [rewrite Hrun; reflexivity |].
  rewrite run_app, Hrun. cbn [fst snd run step app].
  unfold promise_resolved. cbn [sessionPromise set_closure fst snd].
  rewrite app_nil_r, map_app.
  unfold realtime_inputs at 1. rewrite omap_app.
  fold (realtime_inputs (map run_then q)).
  fold (realtime_inputs
          (map run_then
             (map (fun d => ThenSendAudio (createPcmBlob d (actualSampleRate s))) chunks))).
  rewrite inputs_audio_thens. reflexivity.
Qed.

Lemma queued_chunks_sent_in_order_witness :
  snd (run (fst (run new_service [EStart Scenario.env0; EOpen]))
         (map EAudio [[1]; [2]; [3]]%Z)) = [] /\
  realtime_inputs
    (snd (run (fst (run new_service [EStart Scenario.env0; EOpen]))
            (map EAudio [[1]; [2]; [3]]%Z ++ [EResolve Scenario.sess0]))) =
  [{| rate := 48000; pcm := [1]%Z |}; {| rate := 48000; pcm := [2]%Z |};
   {| rate := 48000; pcm := [3]%Z |}].
Proof.
  apply (queued_chunks_sent_in_order
           (fst (run new_service [EStart Scenario.env0; EOpen])) []
           [[1]; [2]; [3]]%Z Scenario.sess0 eq_refl).
  - eexists. reflexivity.
  - reflexivity.
Defined.

(** X16. After the session has ended (by a stop, by the remote side
    closing, or by an error) the audio callback submits nothing more:
    every later chunk is dropped and the state stays as the end left
    it. *)
Theorem no_audio_after_session_end (s : Service) (e : Event) (chunks : list (list Z))
    (He : ends_live_session e = true) :
  run (fst (step s e)) (map EAudio chunks) = (fst (step s e), []) /\
  isActive (fst (step s e)) = false.
Proof.
  assert (Hin : isActive (fst (step s e)) = false).
  { destruct e; try discriminate; cbn [step].
    - unfold onclose. rewrite emit_then. apply cleanup_closure.
    - unfold onerror. rewrite emit_then. apply cleanup_closure.
    - unfold stopSession. rewrite emit_then. apply cleanup_closure. }
  split; [apply inactive_chunks_dropped; exact Hin | exact Hin].
Qed.

Lemma no_audio_after_session_end_witness :
  run (fst (step Scenario.active_service EClose)) (map EAudio [[1]; [2]]%Z)
    = (fst (step Scenario.active_service EClose), []) /\
  isActive (fst (step Scenario.active_service EClose)) = false.
Proof.
  apply (no_audio_after_session_end Scenario.active_service EClose [[1]; [2]]%Z eq_refl).
Defined.

(** X17. Tool calls for any other function are ignored: a message whose
    function calls are all named otherwise delivers no verdict, sends
    no tool response and leaves the service as it was. *)
Theorem other_tools_ignored (s : Service) (msg : LiveServerMessage)
    (fcs : list FunctionCall)
    (Htc : toolCall msg = Some fcs)
    (Hnames : Forall (fun c => call_name c <> "report_outcome") fcs) :
  fst (onmessage msg s) = s /\
  deliveries (snd (onmessage msg s)) = [] /\
  acks (snd (onmessage msg s)) = [].
Proof.
  assert (Hrep : reports msg = []).
  { unfold reports. rewrite Htc. clear Htc.
    induction Hnames as [| c l Hc _ IH]; [reflexivity |]. simpl.
    destruct (String.eqb_spec (call_name c) "report_outcome"); [contradiction | exact IH]. }
  rewrite onmessage_unfold. unfold verdict_thens, verdict_calls. rewrite Hrep.
  cbn [map promise_thens emit fst snd]. rewrite !app_nil_r.
  split; [reflexivity |].
  unfold audio_calls. destruct (truthy (inlineData msg)); split; reflexivity.
Qed.

Lemma other_tools_ignored_witness :
  fst (onmessage
         {| inlineData := None;
            toolCall := Some [{| call_id := "c9"; call_name := "end_call";
                                 call_args := [] |}] |}
         Scenario.active_service) = Scenario.active_service /\
  deliveries (snd (onmessage
         {| inlineData := None;
            toolCall := Some [{| call_id := "c9"; call_name := "end_call";
                                 call_args := [] |}] |}
         Scenario.active_service)) = [] /\
  acks (snd (onmessage
         {| inlineData := None;
            toolCall := Some [{| call_id := "c9"; call_name := "end_call";
                                 call_args := [] |}] |}
         Scenario.active_service)) = [].
Proof.
  apply (other_tools_ignored Scenario.active_service
           {| inlineData := None;
              toolCall := Some [{| call_id := "c9"; call_name := "end_call";
                                   call_args := [] |}] |}
           [{| call_id := "c9"; call_name := "end_call"; call_args := [] |}] eq_refl).
  constructor; [discriminate | constructor].
Defined.

Lemma start_granted s env tracks :
  isActive s = false -> media env = Some tracks ->
  startSession env s =
  (set_closure (Pending []) (sampleRate env)
     (set_inputAudioContext (Some (sampleRate env)) (set_stream (Some tracks) s)),
   [GetUserMedia; NewAudioContext]
     ++ (if suspended env then [ContextResume] else []) ++ [LiveConnect]).
Proof. intros Hin Hm. unfold startSession. rewrite Hin, Hm. reflexivity. Qed.

(** X18. The start guard looks at the active flag only, which [onopen]
    sets: a second [startSession] before [onopen] asks for the
    microphone and connects again, the second stream replaces the
    first in the service, and a later stop stops the tracks of the
    second stream only. *)
Theorem second_start_before_open_connects_again
    (s : Service) (env1 env2 : StartEnv) (tracks1 tracks2 : list nat)
    (Hin : isActive s = false)
    (H1 : media env1 = Some tracks1) (H2 : media env2 = Some tracks2) :
  live_connects (snd (run s [EStart env1; EStart env2])) = 2%nat /\
  user_media_requests (snd (run s [EStart env1; EStart env2])) = 2%nat /\
  stream (fst (run s [EStart env1; EStart env2])) = Some tracks2 /\
  tracks_stopped (snd (stopSession (fst (run s [EStart env1; EStart env2])))) = tracks2.
Proof.
  set (s1 := set_closure (Pending []) (sampleRate env1)
               (set_inputAudioContext (Some (sampleRate env1))
                  (set_stream (Some tracks1) s))).
  assert (Hin1 : isActive s1 = false) by exact Hin.
  cbn [run step].
  rewrite (start_granted s env1 tracks1 Hin H1). fold s1.
  rewrite (start_granted s1 env2 tracks2 Hin1 H2).
  cbn [fst snd]. rewrite !app_nil_r.
  split; [destruct (suspended env1), (suspended env2); reflexivity |].
  split; [destruct (suspended env1), (suspended env2); reflexivity |].
  split; [reflexivity |].
  unfold stopSession. rewrite emit_then. cbn [snd].
  unfold tracks_stopped. rewrite omap_app.
  match goal with
  | |- context [cleanup ?t] => destruct (cleanup_tracks t) as [Htr _]
  end.
  unfold tracks_stopped in Htr. rewrite Htr. subst s1.
  cbn [stream session set_closure set_inputAudioContext set_stream default].
  destruct (session s) as [sess |]; [| reflexivity].
  destruct (has_close sess); [| reflexivity].
  destruct (close_throws sess); reflexivity.
Qed.

Lemma second_start_before_open_connects_again_witness :
  live_connects (snd (run new_service
    [EStart Scenario.env0;
     EStart {| media := Some [7%nat]; failure := EmptyString;
               suspended := true; sampleRate := 44100 |}])) = 2%nat /\
  tracks_stopped (snd (stopSession (fst (run new_service
    [EStart Scenario.env0;
     EStart {| media := Some [7%nat]; failure := EmptyString;
               suspended := true; sampleRate := 44100 |}])))) = [7%nat].
Proof.
  destruct (second_start_before_open_connects_again new_service Scenario.env0
              {| media := Some [7%nat]; failure := EmptyString;
                 suspended := true; sampleRate := 44100 |}
              [0%nat] [7%nat] eq_refl eq_refl eq_refl) as (Hc & _ & _ & Ht).
  split; [exact Hc | exact Ht].
Defined.

(** X19. A second stop spares what the first released and reset: it
    stops no track and closes no context, and the state after it is the
    state after the first. *)
Theorem second_stop_spares_stream_and_context (s : Service) :
  tracks_stopped (snd (stopSession (fst (stopSession s)))) = [] /\
  context_closes (snd (stopSession (fst (stopSession s)))) = 0%nat /\
  fst (stopSession (fst (stopSession s))) = fst (stopSession s).
Proof.
  destruct (stop_is_stable s) as (Hst & Hstr & Hctx & _).
  split; [| split; [| exact Hst]].
  - unfold stopSession at 1. rewrite emit_then. cbn [snd].
    unfold tracks_stopped. rewrite omap_app.
    destruct (cleanup_tracks (fst (stopSession s))) as [Htr _].
    unfold tracks_stopped in Htr. rewrite Htr, Hstr. cbn [default].
    destruct (session (fst (stopSession s))) as [sess |]; [| reflexivity].
    destruct (has_close sess); [| reflexivity].
    destruct (close_throws sess); reflexivity.
  - unfold stopSession at 1. rewrite emit_then. cbn [snd].
    unfold context_closes. rewrite count_app.
    destruct (cleanup_tracks (fst (stopSession s))) as [_ Hcc].
    unfold context_closes in Hcc. rewrite Hcc, Hctx.
    destruct (session (fst (stopSession s))) as [sess |]; [| reflexivity].
    destruct (has_close sess); [| reflexivity].
    destruct (close_throws sess); reflexivity.
Qed.

(** X20. Every submitted chunk carries the sample rate that the audio
    context reported when the session was started: after a start, the
    opening and the resolution of the promise, a captured chunk is
    submitted at once, unchanged, tagged with that rate. *)
Theorem audio_tagged_with_device_rate
    (s : Service) (env : StartEnv) (tracks : list nat) (sess : Session)
    (inputData : list Z)
    (Hin : isActive s = false) (Hm : media env = Some tracks) :
  realtime_inputs (snd (run s [EStart env; EOpen; EResolve sess; EAudio inputData])) =
  [{| rate := sampleRate env; pcm := inputData |}].
Proof.
  cbn [run step]. unfold startSession. rewrite Hin, Hm.
  destruct s as [ss ctx src prc str act p r]. simpl in Hin. subst act.
  destruct (suspended env); reflexivity.
Qed.

Lemma audio_tagged_with_device_rate_witness :
  realtime_inputs
    (snd (run new_service
            [EStart Scenario.env0; EOpen; EResolve Scenario.sess0; EAudio [5; 6]%Z])) =
  [{| rate := 48000; pcm := [5; 6]%Z |}].
Proof.
  apply (audio_tagged_with_device_rate new_service Scenario.env0 [0%nat]
           Scenario.sess0 [5; 6]%Z eq_refl eq_refl).
Defined.


(** X26. An [onopen] that arrives after a stop marks the service active
    again although the stream and the context are gone: no audio node
    is created, no audio is ever captured, and [startSession] is
    refused at its guard until the service is stopped again. *)
Theorem late_open_reactivates (s : Service) (env : StartEnv) (chunks : list (list Z)) :
  isActive (fst (run s [EStop; EOpen])) = true /\
  snd (onopen (fst (stopSession s))) = [ConsoleLog "Gemini Live Connected"; OnConnect] /\
  processor (fst (run s [EStop; EOpen])) = processor s /\
  startSession env (fst (run s [EStop; EOpen])) = (fst (run s [EStop; EOpen]), []) /\
  isActive (fst (run s [EStop; EOpen; EStop])) = false.
Proof.
  assert (Hrun : fst (run s [EStop; EOpen]) = set_isActive true (fst (stopSession s))
                 /\ snd (onopen (fst (stopSession s)))
                    = [ConsoleLog "Gemini Live Connected"; OnConnect]).
  { cbn [run step]. destruct (stopSession s) as [s1 out1] eqn:Es.
    assert (Hctx : inputAudioContext s1 = None).
    { pose proof (stop_is_stable s) as (_ & _ & H & _). now rewrite Es in H. }
    unfold onopen. cbn [inputAudioContext set_isActive fst snd]. rewrite Hctx.
    split; reflexivity. }
  destruct Hrun as [Hst Hcalls]. rewrite Hst.
  split; [reflexivity |]. split; [exact Hcalls |].
  split.
  { cbn [processor set_isActive]. apply stop_is_stable. }
  split; [unfold startSession; reflexivity |].
  change [EStop; EOpen; EStop] with ([EStop; EOpen] ++ [EStop]).
  rewrite (run_app s [EStop; EOpen] [EStop]). cbn [fst]. rewrite Hst.
  cbn [run step fst]. destruct (stopSession (set_isActive true (fst (stopSession s))))
    as [s3 out3] eqn:E3. cbn [fst].
  pose proof (cleanup_closure (set_isActive true (fst (stopSession s)))) as (_ & _ & H).
  unfold stopSession in E3. rewrite emit_then in E3. inversion E3. exact H.
Qed.

(** X27. Stopping while the connection is still being made closes no
    remote session: on a service that holds no session, a start
    followed by a stop before the promise resolves opens one connection
    and calls [close] on none, while the stream and the context are
    released. *)
Theorem stop_while_connecting_closes_nothing
    (s : Service) (env : StartEnv) (tracks : list nat)
    (Hin : isActive s = false) (Hs : session s = None)
    (Hm : media env = Some tracks) :
  live_connects (snd (run s [EStart env; EStop])) = 1%nat /\
  session_closes (snd (run s [EStart env; EStop])) = 0%nat /\
  tracks_stopped (snd (run s [EStart env; EStop])) = tracks /\
  context_closes (snd (run s [EStart env; EStop])) = 1%nat.
Proof.
  set (s1 := set_closure (Pending []) (sampleRate env)
               (set_inputAudioContext (Some (sampleRate env))
                  (set_stream (Some tracks) s))).
  set (prefix := [GetUserMedia; NewAudioContext]
                   ++ (if suspended env then [ContextResume] else []) ++ [LiveConnect]).
  assert (Hcalls : snd (run s [EStart env; EStop]) = prefix ++ snd (cleanup s1)).
  { cbn [run step]. rewrite (start_granted s env tracks Hin Hm). fold s1 prefix.
    unfold stopSession. rewrite emit_then. cbn [fst snd].
    assert (Hs1 : session s1 = None) by exact Hs. rewrite Hs1.
    now rewrite !app_nil_r. }
  rewrite Hcalls.
  destruct (cleanup_tracks s1) as [Htr Hcc].
  assert (Hlc : live_connects (snd (cleanup s1)) = 0%nat)
    by (apply cleanup_count; intros c Hc; destruct c; try reflexivity; discriminate).
  assert (Hsc : session_closes (snd (cleanup s1)) = 0%nat)
    by (apply cleanup_count; intros c Hc; destruct c; try reflexivity; discriminate).
  unfold live_connects, session_closes, tracks_stopped, context_closes in *.
  rewrite !count_app, !omap_app, Hlc, Hsc, Htr, Hcc.
  unfold prefix. destruct (suspended env); repeat split; reflexivity.
Qed.

Lemma stop_while_connecting_closes_nothing_witness :
  live_connects (snd (run new_service [EStart Scenario.env0; EStop])) = 1%nat /\
  session_closes (snd (run new_service [EStart Scenario.env0; EStop])) = 0%nat.
Proof.
  destruct (stop_while_connecting_closes_nothing new_service Scenario.env0 [0%nat]
              eq_refl eq_refl eq_refl) as (Hc & Hs & _).
  split; [exact Hc | exact Hs].
Defined.


End LiveExtras.

(** ** The Simulator component *)

Module SimulatorExtras.
Import Remote Simulator Observe.
Local Open Scope Q_scope.

Definition ready (s : Sim) : Prop :=
  audioContextRef s = true /\ analyserRef s = true.

Lemma starts_app a b : starts (a ++ b) = starts a ++ starts b.
Proof. apply omap_app. Qed.

(** *** Scheduling with rounded sums *)

Section Rounding.

Variable round : Q -> Q.

(** Rounding is monotone and leaves a double as it is. *)
Hypothesis round_monotone : forall x y, x <= y -> round x <= round y.
Hypothesis round_idempotent : forall x, round (round x) == round x.

Definition is_double (x : Q) : Prop := round x == x.

Lemma round_eq x y : x == y -> round x == round y.
Proof.
  intros H. apply Qle_antisym; apply round_monotone; rewrite H; apply Qle_refl.
Qed.

Lemma is_double_eq x y : x == y -> is_double x -> is_double y.
Proof.
  intros H Hx. unfold is_double in *. rewrite <- (round_eq x y H), Hx. exact H.
Qed.

Lemma is_double_max x y : is_double x -> is_double y -> is_double (Qmax x y).
Proof.
  intros Hx Hy. destruct (Q.max_spec x y) as [[_ H] | [_ H]].
  - apply (is_double_eq y); [symmetry; exact H | exact Hy].
  - apply (is_double_eq x); [symmetry; exact H | exact Hx].
Qed.

Lemma rounded_end_after_start t d :
  is_double t -> 0 <= d -> t <= round (t + d).
Proof.
  intros Ht Hd. unfold is_double in Ht. rewrite <- Ht at 1.
  apply round_monotone.
  rewrite <- (Qplus_0_r t) at 1. apply Qplus_le_r. exact Hd.
Qed.

Lemma rounded_step s buffer currentTime :
  ready s ->
  ready (fst (onAudioData_rounded round buffer currentTime s)) /\
  nextStartTimeRef (fst (onAudioData_rounded round buffer currentTime s)) =
    round (Qmax (nextStartTimeRef s) currentTime + duration buffer) /\
  starts (snd (onAudioData_rounded round buffer currentTime s)) =
    [Qmax (nextStartTimeRef s) currentTime].
Proof.
  intros [Hc Ha]. unfold onAudioData_rounded. rewrite Hc, Ha. simpl.
  repeat split; assumption.
Qed.

(** Along a run of buffers each buffer starts at or after its clock,
    its rounded end is at or after its start, and the cursor the run
    leaves is at or after its rounded end. *)
Lemma play_rounded_bound items :
  forall s, ready s -> is_double (nextStartTimeRef s) ->
    Forall (fun it => 0 <= duration (fst it) /\ is_double (snd it)) items ->
    ready (fst (play_rounded round items s)) /\
    is_double (nextStartTimeRef (fst (play_rounded round items s))) /\
    nextStartTimeRef s <= nextStartTimeRef (fst (play_rounded round items s)) /\
    Forall2 (fun t it =>
               snd it <= t /\
               t <= round (t + duration (fst it)) /\
               round (t + duration (fst it))
                 <= nextStartTimeRef (fst (play_rounded round items s)))
      (starts (snd (play_rounded round items s))) items.
Proof.
  induction items as [| [buffer now] items IH]; intros s Hr Hcur Hd.
  - simpl. split; [exact Hr |]. split; [exact Hcur |].
    split; [apply Qle_refl | constructor].
  - apply Forall_cons in Hd as [[Hd0 Hnow] Hd]. cbn [fst snd] in Hd0, Hnow.
    cbn [play_rounded].
    destruct (rounded_step s buffer now Hr) as (Hr1 & Hn1 & Hs1).
    destruct (onAudioData_rounded round buffer now s) as [s1 out1]. cbn [fst snd] in *.
    assert (Hcur1 : is_double (nextStartTimeRef s1)).
    { rewrite Hn1. unfold is_double. apply round_idempotent. }
    destruct (IH s1 Hr1 Hcur1 Hd) as (Hr2 & Hcur2 & Hle & Hall).
    destruct (play_rounded round items s1) as [s2 out2]. cbn [fst snd] in *.
    assert (Hstart : is_double (Qmax (nextStartTimeRef s) now))
      by (apply is_double_max; assumption).
    assert (Hgrow : Qmax (nextStartTimeRef s) now <= nextStartTimeRef s1).
    { rewrite Hn1. apply rounded_end_after_start; assumption. }
    split; [exact Hr2 |]. split; [exact Hcur2 |]. split.
    + eapply Qle_trans; [apply Q.le_max_l |].
      eapply Qle_trans; [exact Hgrow | exact Hle].
    + rewrite starts_app, Hs1. cbn [app]. constructor; [| exact Hall].
      cbn [fst snd]. split; [apply Q.le_max_r |].
      split; [apply rounded_end_after_start; assumption |].
      rewrite <- Hn1. exact Hle.
Qed.

End Rounding.

(** *** The rounding of the examples *)

Lemma round_to_eighths_monotone x y :
  x <= y -> Scenario.round_to_eighths x <= Scenario.round_to_eighths y.
Proof.
  intros H. unfold Scenario.round_to_eighths.
  assert (Hf : (Qfloor (x * 8 + (1 # 2)) <= Qfloor (y * 8 + (1 # 2)))%Z).
  { apply Qfloor_resp_le. apply Qplus_le_l. apply Qmult_le_compat_r; [exact H |].
    unfold Qle. simpl. lia. }
  unfold Qle. cbn [Qnum Qden]. lia.
Qed.

Lemma round_to_eighths_idempotent x :
  Scenario.round_to_eighths (Scenario.round_to_eighths x) == Scenario.round_to_eighths x.
Proof.
  unfold Scenario.round_to_eighths at 1 3.
  set (n := Qfloor (Scenario.round_to_eighths x * 8 + (1 # 2))).
  set (m := Qfloor (x * 8 + (1 # 2))).
  assert (Hn : n = m).
  { subst n. unfold Scenario.round_to_eighths. fold m.
    unfold Qfloor, Qplus, Qmult. simpl.
    symmetry. apply (Z.div_unique _ _ m 8%Z); lia. }
  rewrite Hn. reflexivity.
Qed.

(** X21. Playback never starts in the past and never before the cursor
    an earlier buffer left: with the sums rounded to doubles, after any
    run of buffers of non-negative duration the next buffer starts at or
    after the device clock, and every buffer scheduled before it started
    at or after its own clock and has its rounded end, the cursor it
    stored, between its own start and the start of the next buffer. *)
Theorem playback_never_before_cursor
    (round : Q -> Q)
    (s : Sim) (items : list (AudioBuffer * Q)) (buffer : AudioBuffer) (now : Q)
    (Hmono : forall x y, x <= y -> round x <= round y)
    (Hidem : forall x, round (round x) == round x)
    (Hc : audioContextRef s = true) (Ha : analyserRef s = true)
    (Hcur : round (nextStartTimeRef s) == nextStartTimeRef s)
    (Hd : Forall (fun it => 0 <= duration (fst it) /\ round (snd it) == snd it) items) :
  exists t,
    starts (snd (onAudioData_rounded round buffer now
                   (fst (play_rounded round items s)))) = [t] /\
    now <= t /\
    nextStartTimeRef (fst (play_rounded round items s)) <= t /\
    Forall2 (fun t' it =>
               snd it <= t' /\
               t' <= round (t' + duration (fst it)) /\
               round (t' + duration (fst it)) <= t)
      (starts (snd (play_rounded round items s))) items.
Proof.
  destruct (play_rounded_bound round Hmono Hidem items s (conj Hc Ha) Hcur Hd)
    as (Hr & _ & _ & Hall).
  destruct (rounded_step round (fst (play_rounded round items s)) buffer now Hr)
    as (_ & _ & Hs).
  eexists. split; [exact Hs |]. split; [apply Q.le_max_r |].
  split; [apply Q.le_max_l |].
  eapply Forall2_impl; [exact Hall |].
  intros t' it (Hpast & Hend & Hcursor). split; [exact Hpast |]. split; [exact Hend |].
  eapply Qle_trans; [exact Hcursor | apply Q.le_max_l].
Qed.

(** Two buffers of three tenths of a second, then a third one, with
    sums rounded to eighths: the cursor after the first buffer is 5/4,
    below its exact end 13/10. *)
Lemma playback_never_before_cursor_witness :
  exists t,
    starts (snd (onAudioData_rounded Scenario.round_to_eighths {| duration := 1 # 4 |} (5 # 4)
                   (fst (play_rounded Scenario.round_to_eighths
                           [({| duration := 3 # 10 |}, 1); ({| duration := 3 # 10 |}, 1)]
                           (fst (handleStartCall false new_sim)))))) = [t] /\
    5 # 4 <= t /\
    nextStartTimeRef (fst (play_rounded Scenario.round_to_eighths
                             [({| duration := 3 # 10 |}, 1); ({| duration := 3 # 10 |}, 1)]
                             (fst (handleStartCall false new_sim)))) <= t /\
    Forall2 (fun t' it =>
               snd it <= t' /\
               t' <= Scenario.round_to_eighths (t' + duration (fst it)) /\
               Scenario.round_to_eighths (t' + duration (fst it)) <= t)
      (starts (snd (play_rounded Scenario.round_to_eighths
                      [({| duration := 3 # 10 |}, 1); ({| duration := 3 # 10 |}, 1)]
                      (fst (handleStartCall false new_sim)))))
      [({| duration := 3 # 10 |}, 1); ({| duration := 3 # 10 |}, 1)].
Proof.
  apply (playback_never_before_cursor Scenario.round_to_eighths
           (fst (handleStartCall false new_sim))
           [({| duration := 3 # 10 |}, 1); ({| duration := 3 # 10 |}, 1)]
           {| duration := 1 # 4 |} (5 # 4)
           round_to_eighths_monotone round_to_eighths_idempotent eq_refl eq_refl).
  - reflexivity.
  - repeat constructor; unfold Qle; simpl; lia.
Defined.

(** X22. Playback is gapless when audio arrives ahead of the clock and
    immediate when it arrives late: a buffer that arrives while the
    cursor is at or after the clock starts exactly at the cursor, and a
    buffer that arrives after the cursor has passed starts at the
    clock. *)
Theorem gapless_or_immediate (s : Sim) (buffer : AudioBuffer) (now : Q)
    (Hc : audioContextRef s = true) (Ha : analyserRef s = true) :
  (now <= nextStartTimeRef s ->
     starts (snd (onAudioData buffer now s)) = [nextStartTimeRef s]) /\
  (nextStartTimeRef s < now ->
     starts (snd (onAudioData buffer now s)) = [now]).
Proof.
  rewrite (SimulatorProofs.schedule_law s buffer now Hc Ha). cbn [snd starts omap].
  unfold Qmax, GenericMinMax.gmax.
  split; intros Hcmp.
  - destruct (nextStartTimeRef s ?= now) eqn:E; try reflexivity.
    apply Qlt_alt in E. exfalso. apply (Qlt_not_le _ _ E). exact Hcmp.
  - destruct (nextStartTimeRef s ?= now) eqn:E; try reflexivity; exfalso.
    + apply Qeq_alt in E. rewrite E in Hcmp. exact (Qlt_irrefl _ Hcmp).
    + apply Qgt_alt in E. apply (Qlt_not_le _ _ E). apply Qlt_le_weak. exact Hcmp.
Qed.

Lemma gapless_or_immediate_witness :
  starts (snd (onAudioData {| duration := 1 # 2 |} 1
                 (fst (run (fst (handleStartCall false new_sim))
                         (audio_events [({| duration := 1 # 2 |}, 1)])))))
    = [3 # 2] /\
  starts (snd (onAudioData {| duration := 1 # 2 |} 2
                 (fst (run (fst (handleStartCall false new_sim))
                         (audio_events [({| duration := 1 # 2 |}, 1)])))))
    = [2].
Proof.
  split.
  - apply (gapless_or_immediate
             (fst (run (fst (handleStartCall false new_sim))
                     (audio_events [({| duration := 1 # 2 |}, 1)])))
             {| duration := 1 # 2 |} 1 eq_refl eq_refl).
    unfold Qle. simpl. lia.
  - apply (gapless_or_immediate
             (fst (run (fst (handleStartCall false new_sim))
                     (audio_events [({| duration := 1 # 2 |}, 1)])))
             {| duration := 1 # 2 |} 2 eq_refl eq_refl).
    unfold Qlt. simpl. lia.
Defined.

(** X23. Only the verdict "scam" is logged as a scam: [onToolCall]
    adds one entry to the call log, SCAM_DETECTED for a tool call whose
    [verdict] is the text "scam" and LEGITIMATE for every other tool
    call, with another verdict, a verdict that is not a text or no
    verdict at all. *)
Theorem only_scam_is_flagged (s : Sim) (response : Args) :
  (field "verdict" response = Some (JStr "scam") ->
     logged_statuses (snd (onToolCall response s)) = [SCAM_DETECTED]) /\
  (field "verdict" response <> Some (JStr "scam") ->
     logged_statuses (snd (onToolCall response s)) = [LEGITIMATE]).
Proof.
  unfold onToolCall. cbn [fst snd].
  destruct (field "verdict" response) as [[v | q | b |] |] eqn:E;
    try (split; [intros H; discriminate | reflexivity]).
  destruct (String.eqb_spec v "scam") as [-> | Hne].
  - split; [reflexivity | intros H; contradiction].
  - split; [intros H; inversion H; contradiction | reflexivity].
Qed.

Lemma only_scam_is_flagged_witness :
  logged_statuses (snd (onToolCall Scenario.scam_args new_sim)) = [SCAM_DETECTED] /\
  logged_statuses (snd (onToolCall Scenario.no_verdict_args new_sim)) = [LEGITIMATE].
Proof.
  split.
  - apply (only_scam_is_flagged new_sim Scenario.scam_args). reflexivity.
  - apply (only_scam_is_flagged new_sim Scenario.no_verdict_args). discriminate.
Defined.

(** *** The output context *)

Lemma step_context s e :
  audioContextRef s = analyserRef s ->
  audioContextRef (fst (step s e)) = analyserRef (fst (step s e)) /\
  (audioContextRef s = true ->
     audioContextRef (fst (step s e)) = true /\ contexts_created (snd (step s e)) = 0%nat) /\
  (contexts_created (snd (step s e)) <= 1)%nat.
Proof.
  intros Heq.
  destruct e as [suspended | | | | message | buffer now | response]; cbn [step].
  - unfold handleStartCall, initializeAudio. cbn [audioContextRef set_state].
    destruct (audioContextRef s) eqn:Hc.
    + cbn [audioContextRef analyserRef set_state negb fst snd].
      rewrite Hc. cbn [negb fst snd audioContextRef analyserRef set_state].
      split; [rewrite Hc; exact Heq |]. split.
      * intros _. split; [exact Hc |]. destruct suspended; reflexivity.
      * destruct suspended; unfold contexts_created; simpl; lia.
    + cbn [audioContextRef analyserRef set_state set_refs negb fst snd].
      split; [reflexivity |]. split; [intros H; discriminate |].
      destruct suspended; unfold contexts_created; simpl; lia.
  - simpl. split; [exact Heq |]. split; [intros H; split; [exact H | reflexivity] | unfold contexts_created; simpl; lia].
  - simpl. split; [exact Heq |]. split; [intros H; split; [exact H | reflexivity] | unfold contexts_created; simpl; lia].
  - simpl. split; [exact Heq |]. split; [intros H; split; [exact H | reflexivity] | unfold contexts_created; simpl; lia].
  - simpl. split; [exact Heq |]. split; [intros H; split; [exact H | reflexivity] | unfold contexts_created; simpl; lia].
  - unfold onAudioData.
    destruct (negb (audioContextRef s) || negb (analyserRef s)); simpl;
      (split; [exact Heq |]; split; [intros H; split; [exact H | reflexivity] | unfold contexts_created; simpl; lia]).
  - simpl. split; [exact Heq |]. split; [intros H; split; [exact H | reflexivity] | unfold contexts_created; simpl; lia].
Qed.

Lemma contexts_created_app a b :
  contexts_created (a ++ b) = (contexts_created a + contexts_created b)%nat.
Proof. unfold contexts_created. now rewrite List.filter_app, length_app. Qed.

Lemma run_context es :
  forall s, audioContextRef s = analyserRef s ->
    audioContextRef (fst (run s es)) = analyserRef (fst (run s es)) /\
    (audioContextRef s = true -> contexts_created (snd (run s es)) = 0%nat) /\
    (contexts_created (snd (run s es)) <= 1)%nat.
Proof.
  induction es as [| e es IH]; intros s Heq; simpl.
  - split; [exact Heq |]. split; [reflexivity | unfold contexts_created; simpl; lia].
  - destruct (step_context s e Heq) as (Heq1 & Hkeep & Hle).
    destruct (step s e) as [s1 out1] eqn:Es. cbn [fst snd] in *.
    destruct (IH s1 Heq1) as (Heq2 & Hzero & Hle2).
    destruct (run s1 es) as [s2 out2]. cbn [fst snd] in *.
    split; [exact Heq2 |]. rewrite contexts_created_app. split.
    + intros Hc. destruct (Hkeep Hc) as [Hc1 Hz]. rewrite Hz, (Hzero Hc1). reflexivity.
    + destruct (audioContextRef s1) eqn:Hc1.
      * rewrite (Hzero eq_refl). lia.
      * assert (Hz : contexts_created out1 = 0%nat).
        { destruct (audioContextRef s) eqn:Hc.
          - destruct (Hkeep eq_refl) as [Habs _]. discriminate.
          - clear -Es Hc Hc1. destruct e; cbn [step] in Es.
            + unfold handleStartCall, initializeAudio in Es.
              cbn [audioContextRef set_state] in Es. rewrite Hc in Es.
              cbn [audioContextRef set_refs set_state negb] in Es.
              inversion Es. subst. discriminate.
            + inversion Es. reflexivity.
            + inversion Es. reflexivity.
            + inversion Es. reflexivity.
            + inversion Es. reflexivity.
            + unfold onAudioData in Es. rewrite Hc in Es. inversion Es. reflexivity.
            + inversion Es. reflexivity. }
        rewrite Hz. lia.
Qed.

(** X24. The output context is created once: in any sequence of
    events from the initial state at most one output context is
    created, however often a call is started, and the context and the
    analyser are always set together. *)
Theorem output_context_created_once (es : list Event) :
  (contexts_created (snd (run new_sim es)) <= 1)%nat /\
  audioContextRef (fst (run new_sim es)) = analyserRef (fst (run new_sim es)).
Proof.
  destruct (run_context es new_sim eq_refl) as (Heq & _ & Hle).
  split; [exact Hle | exact Heq].
Qed.


End SimulatorExtras.

(** ** The dashboard counters *)

Module DashboardProofs.
Import Dashboard.
Local Open Scope Z_scope.

Section Balance.
Variable Status : Type.
Variable status_eqb : Status -> Status -> bool.
Variables SCAM_DETECTED LEGITIMATE : Status.
Hypothesis status_eqb_eq : forall a b, status_eqb a b = true <-> a = b.
Hypothesis members_differ : SCAM_DETECTED <> LEGITIMATE.

Lemma count_call_balance status prev :
  status = SCAM_DETECTED \/ status = LEGITIMATE ->
  totalCalls (count_call Status status_eqb SCAM_DETECTED LEGITIMATE status prev)
    = totalCalls prev + 1 /\
  scamsBlocked (count_call Status status_eqb SCAM_DETECTED LEGITIMATE status prev)
    + callsForwarded (count_call Status status_eqb SCAM_DETECTED LEGITIMATE status prev)
    = scamsBlocked prev + callsForwarded prev + 1 /\
  avgThreatLevel (count_call Status status_eqb SCAM_DETECTED LEGITIMATE status prev)
    = avgThreatLevel prev.
Proof.
  intros Hst. unfold count_call. cbn [totalCalls scamsBlocked callsForwarded avgThreatLevel].
  assert (Hss : status_eqb SCAM_DETECTED SCAM_DETECTED = true) by now apply status_eqb_eq.
  assert (Hll : status_eqb LEGITIMATE LEGITIMATE = true) by now apply status_eqb_eq.
  assert (Hsl : status_eqb SCAM_DETECTED LEGITIMATE = false).
  { destruct (status_eqb SCAM_DETECTED LEGITIMATE) eqn:E; [| reflexivity].
    apply status_eqb_eq in E. contradiction. }
  assert (Hls : status_eqb LEGITIMATE SCAM_DETECTED = false).
  { destruct (status_eqb LEGITIMATE SCAM_DETECTED) eqn:E; [| reflexivity].
    apply status_eqb_eq in E. symmetry in E. contradiction. }
  destruct Hst as [-> | ->].
  - rewrite Hss, Hsl. repeat split; lia.
  - rewrite Hls, Hll. repeat split; lia.
Qed.

(** X25. The dashboard counters stay balanced: after any number of
    logs whose status is one of the two the update compares with, the
    total has grown by the number of logs, each log was counted in
    exactly one of the two buckets, the threat level is unchanged, and
    if the counters were balanced before (as the initial ones are) the
    card of blocked calls, total minus forwarded, shows the number of
    scams. *)
Theorem counters_stay_balanced (statuses : list Status) (prev : DashboardStats)
    (Hall : Forall (fun st => st = SCAM_DETECTED \/ st = LEGITIMATE) statuses) :
  totalCalls (count_calls Status status_eqb SCAM_DETECTED LEGITIMATE statuses prev)
    = totalCalls prev + Z.of_nat (length statuses) /\
  scamsBlocked (count_calls Status status_eqb SCAM_DETECTED LEGITIMATE statuses prev)
    + callsForwarded (count_calls Status status_eqb SCAM_DETECTED LEGITIMATE statuses prev)
    = scamsBlocked prev + callsForwarded prev + Z.of_nat (length statuses) /\
  avgThreatLevel (count_calls Status status_eqb SCAM_DETECTED LEGITIMATE statuses prev)
    = avgThreatLevel prev /\
  (totalCalls prev = scamsBlocked prev + callsForwarded prev ->
   shown_blocked (count_calls Status status_eqb SCAM_DETECTED LEGITIMATE statuses prev)
     = scamsBlocked (count_calls Status status_eqb SCAM_DETECTED LEGITIMATE statuses prev)) /\
  totalCalls initial_stats = scamsBlocked initial_stats + callsForwarded initial_stats.
Proof.
  assert (Hgen : forall l st,
    Forall (fun s => s = SCAM_DETECTED \/ s = LEGITIMATE) l ->
    totalCalls (count_calls Status status_eqb SCAM_DETECTED LEGITIMATE l st)
      = totalCalls st + Z.of_nat (length l) /\
    scamsBlocked (count_calls Status status_eqb SCAM_DETECTED LEGITIMATE l st)
      + callsForwarded (count_calls Status status_eqb SCAM_DETECTED LEGITIMATE l st)
      = scamsBlocked st + callsForwarded st + Z.of_nat (length l) /\
    avgThreatLevel (count_calls Status status_eqb SCAM_DETECTED LEGITIMATE l st)
      = avgThreatLevel st).
  { induction l as [| status l IH]; intros st Hl.
    - simpl. repeat split; lia.
    - apply Forall_cons in Hl as [Hs Hl].
      destruct (count_call_balance status st Hs) as (Ht & Hb & Ha).
      destruct (IH (count_call Status status_eqb SCAM_DETECTED LEGITIMATE status st) Hl)
        as (Ht' & Hb' & Ha').
      unfold count_calls in *. cbn [fold_left length].
      rewrite Ht', Hb', Ha', Ht, Hb, Ha. repeat split; lia. }
  destruct (Hgen statuses prev Hall) as (Ht & Hb & Ha).
  split; [exact Ht |]. split; [exact Hb |]. split; [exact Ha |].
  split; [| reflexivity].
  intros Hbal. unfold shown_blocked. lia.
Qed.

End Balance.

Lemma counters_stay_balanced_witness :
  totalCalls (count_calls Simulator.CallStatus Observe.status_eqb
                Simulator.SCAM_DETECTED Simulator.LEGITIMATE
                (Observe.logged_statuses
                   (snd (Simulator.run Simulator.new_sim
                           [Simulator.ToolCall Scenario.scam_args;
                            Simulator.ToolCall Scenario.safe_args])))
                initial_stats) = 144 /\
  shown_blocked (count_calls Simulator.CallStatus Observe.status_eqb
                   Simulator.SCAM_DETECTED Simulator.LEGITIMATE
                   (Observe.logged_statuses
                      (snd (Simulator.run Simulator.new_sim
                              [Simulator.ToolCall Scenario.scam_args;
                               Simulator.ToolCall Scenario.safe_args])))
                   initial_stats) = 90.
Proof.
  assert (Heq : forall a b, Observe.status_eqb a b = true <-> a = b).
  { intros [] []; simpl; split; intros H; try reflexivity; discriminate. }
  assert (Hne : Simulator.SCAM_DETECTED <> Simulator.LEGITIMATE) by discriminate.
  assert (Hall : Forall (fun st => st = Simulator.SCAM_DETECTED \/ st = Simulator.LEGITIMATE)
                   (Observe.logged_statuses
                      (snd (Simulator.run Simulator.new_sim
                              [Simulator.ToolCall Scenario.scam_args;
                               Simulator.ToolCall Scenario.safe_args])))).
  { simpl. constructor; [left; reflexivity |].
    constructor; [right; reflexivity | constructor]. }
  destruct (counters_stay_balanced Simulator.CallStatus Observe.status_eqb
              Simulator.SCAM_DETECTED Simulator.LEGITIMATE Heq Hne _ initial_stats Hall)
    as (Ht & _ & _ & Hshown & Hinit).
  split; [exact Ht |].
  rewrite (Hshown Hinit). reflexivity.
Defined.

End DashboardProofs.
